(** * galpy: two-power spherical potentials

    A shallow embedding of [galpy/potential/TwoPowerSphericalPotential.py]:
    the class family [TwoPowerSphericalPotential], [DehnenSphericalPotential],
    [TwoPowerIntegerSphericalPotential], [HernquistPotential],
    [JaffePotential] and [NFWPotential], their constructors, their exponent
    properties and the evaluators [_evaluate], [_Rforce], [_zforce],
    [_R2deriv], [_z2deriv], [_Rzderiv] and [_mass].

    Conventions of the embedding.
    - Python floats are idealised as real numbers ([R]); a quantity that is
      [inf] or [nan] in IEEE arithmetic has no counterpart, so statements
      about values carry the side conditions ([0 < r], [0 < a]) under which
      every denominator is non-zero.
    - [scipy.special.gamma] and [scipy.special.hyp2f1] are imported by the
      module, not defined by it: the evaluators take them as parameters.
    - Objects are records; [integerSelf] is the nested delegate object.
    - A method call is modelled with Python's argument binding (positional
      arguments, keywords, defaults), so that a call whose shape does not
      fit the callee's signature raises [TypeError] as it does in Python.
    - Exceptions are values of [result]. *)

From Stdlib Require Import Reals Lra ZArith List String Bool Lia.
Import ListNotations.

Open Scope R_scope.

(** Python's [float], so that the cylindrical radius can keep its name [R]. *)
Abbreviation float := R (only parsing).

(** ** Python numbers *)

Module PyNum.

(** [int(x)] on a float: truncation towards zero. *)
Definition int (x : R) : Z :=
  if Rle_dec 0 x then Int_part x else (- Int_part (- x))%Z.

(** [round(x)] on a float: nearest integer, ties to the even one. *)
Definition round (x : R) : Z :=
  let n := Int_part x in
  let d := x - IZR n in
  if Rlt_dec d (1 / 2) then n
  else if Rlt_dec (1 / 2) d then (n + 1)%Z
  else if Z.even n then n else (n + 1)%Z.

(** [x ** y].  A positive base is raised to any real exponent; any base is
    raised to an integer-valued exponent by repeated multiplication (so
    [R**2.] is [R*R] also for [R <= 0]).  A non-positive base with a
    fractional exponent is [nan] (or [0.] at base [0.]) in Python: the
    embedding returns [0] there. *)
Definition pow (x y : R) : R :=
  if Rlt_dec 0 x then Rpower x y
  else if Req_dec_T y (IZR (Int_part y)) then powerRZ x (Int_part y)
  else 0.

(** [x == y] on floats. *)
Definition eqb (x y : R) : bool := if Req_dec_T x y then true else false.

End PyNum.

Infix "**" := PyNum.pow (at level 30, right associativity) : R_scope.

(** ** Python objects, values and exceptions *)

(** The classes of the module. *)
Inductive cls : Set :=
| TwoPowerSphericalPotential
| DehnenSphericalPotential
| TwoPowerIntegerSphericalPotential
| HernquistPotential
| JaffePotential
| NFWPotential.

Definition cls_eqb (c d : cls) : bool :=
  match c, d with
  | TwoPowerSphericalPotential, TwoPowerSphericalPotential
  | DehnenSphericalPotential, DehnenSphericalPotential
  | TwoPowerIntegerSphericalPotential, TwoPowerIntegerSphericalPotential
  | HernquistPotential, HernquistPotential
  | JaffePotential, JaffePotential
  | NFWPotential, NFWPotential => true
  | _, _ => false
  end.

(** An instance: [self.__class__], [self.a], [self._alpha], [self._beta]
    and [self.integerSelf] ([None] or the delegate object).  The amplitude
    is kept by the base class [Potential] and is not read by any of the
    methods embedded here. *)
#[local] Unset Elimination Schemes.
Inductive instance : Type :=
  Instance {
    klass : cls;
    a : R;
    _alpha : R;
    _beta : R;
    integerSelf : option instance
  }.
#[local] Set Elimination Schemes.

Inductive pyval : Type :=
| VFloat (x : R)
| VBool (b : bool)
| VNone
| VObj (o : instance).

Inductive pyerr : Set :=
| TypeError_unexpected_keyword (fn kw : string)
| TypeError_multiple_values (fn kw : string)
| TypeError_too_many_positional (fn : string)
| TypeError_missing_argument (fn p : string)
| TypeError_operand
| AttributeError (attr : string)
| ValueError (msg : string)
| PyException (msg : string).

Definition is_TypeError (e : pyerr) : bool :=
  match e with
  | TypeError_unexpected_keyword _ _ | TypeError_multiple_values _ _
  | TypeError_too_many_positional _ | TypeError_missing_argument _ _
  | TypeError_operand => true
  | _ => false
  end.

Inductive result (A : Type) : Type :=
| Ok (x : A)
| Raise (e : pyerr).

Arguments Ok {A} x.
Arguments Raise {A} e.

Definition rbind {A B : Type} (r : result A) (k : A -> result B) : result B :=
  match r with
  | Ok x => k x
  | Raise e => Raise e
  end.

Notation "x <- e ;; k" := (rbind e (fun x => k))
  (at level 61, e at next level, right associativity).

(** A float operand of an arithmetic expression; [bool] is a subtype of
    [int], anything else has no arithmetic with floats. *)
Definition as_float (v : pyval) : result R :=
  match v with
  | VFloat x => Ok x
  | VBool b => Ok (if b then 1 else 0)
  | VNone | VObj _ => Raise TypeError_operand
  end.

(** Truth value of an object, as [not] and [if] take it. *)
Definition truthy (v : pyval) : bool :=
  match v with
  | VFloat x => negb (PyNum.eqb x 0)
  | VBool b => b
  | VNone => false
  | VObj _ => true
  end.

Definition is_None (v : pyval) : bool :=
  match v with VNone => true | _ => false end.

(** ** Argument binding *)

Definition param : Type := string * option pyval.
Definition env : Type := list (string * pyval).

Fixpoint lookup (k : string) (e : env) : option pyval :=
  match e with
  | [] => None
  | (k', v) :: e' => if String.eqb k k' then Some v else lookup k e'
  end.

Definition has_param (k : string) (ps : list param) : bool :=
  existsb (fun p => String.eqb k (fst p)) ps.

(** Positional arguments fill the parameters from the left. *)
Fixpoint bind_positional (ps : list param) (pos : list pyval) : env :=
  match ps, pos with
  | (k, _) :: ps', v :: pos' => (k, v) :: bind_positional ps' pos'
  | _, _ => []
  end.

(** Keywords, in call order: an unknown name and a name that is already
    bound are both errors. *)
Fixpoint bind_keywords (fn : string) (ps : list param)
         (kw : list (string * pyval)) (e : env) : result env :=
  match kw with
  | [] => Ok e
  | (k, v) :: kw' =>
      if negb (has_param k ps) then Raise (TypeError_unexpected_keyword fn k)
      else match lookup k e with
           | Some _ => Raise (TypeError_multiple_values fn k)
           | None => bind_keywords fn ps kw' (e ++ [(k, v)])
           end
  end.

(** Parameters left unbound take their default, or are missing. *)
Fixpoint bind_defaults (fn : string) (ps : list param) (e : env) : result env :=
  match ps with
  | [] => Ok []
  | (k, d) :: ps' =>
      v <- match lookup k e, d with
           | Some v, _ => Ok v
           | None, Some v => Ok v
           | None, None => Raise (TypeError_missing_argument fn k)
           end ;;
      rest <- bind_defaults fn ps' e ;;
      Ok ((k, v) :: rest)
  end.

Definition bind (fn : string) (ps : list param) (pos : list pyval)
           (kw : list (string * pyval)) : result env :=
  e <- bind_keywords fn ps kw (bind_positional ps pos) ;;
  if (List.length ps <? List.length pos)%nat then Raise (TypeError_too_many_positional fn)
  else bind_defaults fn ps e.

(** A bound parameter (every parameter is bound once [bind] succeeded). *)
Definition arg (e : env) (k : string) : pyval :=
  match lookup k e with
  | Some v => v
  | None => VNone
  end.

(** ** Classes and method resolution *)

(** The evaluators of the module that are embedded. *)
Inductive meth : Set :=
| M_evaluate | M_Rforce | M_zforce | M_R2deriv | M_z2deriv | M_Rzderiv | M_mass.

Definition meth_name (m : meth) : string :=
  match m with
  | M_evaluate => "_evaluate"
  | M_Rforce => "_Rforce"
  | M_zforce => "_zforce"
  | M_R2deriv => "_R2deriv"
  | M_z2deriv => "_z2deriv"
  | M_Rzderiv => "_Rzderiv"
  | M_mass => "_mass"
  end.

(** Which class body has a [def] of which evaluator.  In
    [TwoPowerSphericalPotential] the definitions of [_R2deriv] and
    [_Rzderiv] are commented out. *)
Definition defines (c : cls) (m : meth) : bool :=
  match c, m with
  | TwoPowerSphericalPotential,
    (M_evaluate | M_Rforce | M_zforce | M_z2deriv | M_mass) => true
  | DehnenSphericalPotential, (M_R2deriv | M_z2deriv | M_Rzderiv) => true
  | TwoPowerIntegerSphericalPotential,
    (M_evaluate | M_Rforce | M_zforce | M_R2deriv) => true
  | (HernquistPotential | JaffePotential | NFWPotential),
    (M_evaluate | M_Rforce | M_zforce | M_R2deriv | M_Rzderiv | M_mass) => true
  | _, _ => false
  end.

(** Method resolution order, up to (and excluding) the base class
    [Potential]. *)
Definition mro (c : cls) : list cls :=
  match c with
  | TwoPowerSphericalPotential => [TwoPowerSphericalPotential]
  | DehnenSphericalPotential =>
      [DehnenSphericalPotential; TwoPowerSphericalPotential]
  | TwoPowerIntegerSphericalPotential =>
      [TwoPowerIntegerSphericalPotential; TwoPowerSphericalPotential]
  | HernquistPotential =>
      [HernquistPotential; DehnenSphericalPotential; TwoPowerSphericalPotential]
  | JaffePotential =>
      [JaffePotential; DehnenSphericalPotential; TwoPowerSphericalPotential]
  | NFWPotential => [NFWPotential; TwoPowerSphericalPotential]
  end.

(** The class whose [def] an attribute lookup on an instance of [c] finds. *)
Definition resolve (c : cls) (m : meth) : option cls :=
  find (fun c' => defines c' m) (mro c).

(** Signatures ([self] left out). *)
Definition sig_Rzphit : list param :=
  [("R", None); ("z", None); ("phi", Some (VFloat 0)); ("t", Some (VFloat 0))]%string.

Definition sig_Rzphit_flag (dflt : bool) : list param :=
  sig_Rzphit ++ [("_forceFloatEval", Some (VBool dflt))]%string.

Definition sig_mass : list param :=
  [("R", None); ("z", Some (VFloat 0)); ("t", Some (VFloat 0))]%string.

Definition signature (c : cls) (m : meth) : list param :=
  match c, m with
  | _, M_mass => sig_mass
  | TwoPowerSphericalPotential, _ => sig_Rzphit_flag false
  | DehnenSphericalPotential, M_R2deriv => sig_Rzphit_flag false
  | NFWPotential, M_R2deriv => sig_Rzphit_flag true
  | _, _ => sig_Rzphit
  end.

(** A call on an object: method, positional arguments, keyword arguments. *)
Definition caller : Type :=
  meth -> list pyval -> list (string * pyval) -> result R.

(** [self.integerSelf.<m>(...)] once [self.integerSelf is not None]. *)
Definition phi_t (e : env) : list (string * pyval) :=
  [("phi", arg e "phi"); ("t", arg e "t")]%string.

(** [r= sqrt(R**2.+z**2.)] *)
Definition radius (R z : float) : float := sqrt (R ** 2 + z ** 2).

(** A body that computes with the floats [R] and [z]. *)
Definition with_floats (e : env) (k : float -> float -> float) : result float :=
  R <- as_float (arg e "R") ;;
  z <- as_float (arg e "z") ;;
  Ok (k R z).

(** [r= R if z is None else sqrt(R**2.+z**2.)], then a body in [r]. *)
Definition with_mass_radius (e : env) (k : float -> float) : result float :=
  if is_None (arg e "z") then
    R <- as_float (arg e "R") ;; Ok (k R)
  else
    R <- as_float (arg e "R") ;;
    z <- as_float (arg e "z") ;;
    Ok (k (radius R z)).

(** ** The evaluators *)

Section Evaluators.

(** [from scipy.special import gamma as Gamma, hyp2f1] *)
Variable Gamma : float -> float.
Variable hyp2f1 : float -> float -> float -> float -> float.

Section Methods.

Variable self : instance.

(** Calls on [self.integerSelf]; [None] when [self.integerSelf is None]. *)
Variable sub : option caller.

(** *** class TwoPowerSphericalPotential *)

Definition TwoPowerSphericalPotential__evaluate
           (pos : list pyval) (kw : list (string * pyval)) : result float :=
  e <- bind "_evaluate" (signature TwoPowerSphericalPotential M_evaluate) pos kw ;;
  match negb (truthy (arg e "_forceFloatEval")), sub with
  | true, Some integerSelf_evaluator =>
      integerSelf_evaluator M_evaluate [arg e "R"; arg e "z"] (phi_t e)
  | _, _ =>
      if PyNum.eqb (_beta self) 3 then
        let a := a self in let alpha := _alpha self in
        with_floats e (fun R z =>
          let r := sqrt (R ** 2 + z ** 2) in
          (1 / a)
          * (r - a * (r / a) ** (3 - alpha) / (3 - alpha)
                 * hyp2f1 (3 - alpha) (2 - alpha) (4 - alpha) (- r / a))
          / (alpha - 2) / r)
      else
        let a := a self in let alpha := _alpha self in let beta := _beta self in
        with_floats e (fun R z =>
          let r := sqrt (R ** 2 + z ** 2) in
          Gamma (beta - 3)
          * ((r / a) ** (3 - beta) / Gamma (beta - 1)
               * hyp2f1 (beta - 3) (beta - alpha) (beta - 1) (- a / r)
             - Gamma (3 - alpha) / Gamma (beta - alpha))
          / r)
  end.

Definition TwoPowerSphericalPotential__Rforce
           (pos : list pyval) (kw : list (string * pyval)) : result float :=
  e <- bind "_Rforce" (signature TwoPowerSphericalPotential M_Rforce) pos kw ;;
  match negb (truthy (arg e "_forceFloatEval")), sub with
  | true, Some integerSelf_evaluator =>
      integerSelf_evaluator M_Rforce [arg e "R"; arg e "z"] (phi_t e)
  | _, _ =>
      let a := a self in let alpha := _alpha self in let beta := _beta self in
      with_floats e (fun R z =>
        let r := sqrt (R ** 2 + z ** 2) in
        - R / r ** alpha * a ** (alpha - 3) / (3 - alpha)
        * hyp2f1 (3 - alpha) (beta - alpha) (4 - alpha) (- r / a))
  end.

Definition TwoPowerSphericalPotential__zforce
           (pos : list pyval) (kw : list (string * pyval)) : result float :=
  e <- bind "_zforce" (signature TwoPowerSphericalPotential M_zforce) pos kw ;;
  match negb (truthy (arg e "_forceFloatEval")), sub with
  | true, Some integerSelf_evaluator =>
      integerSelf_evaluator M_zforce [arg e "R"; arg e "z"] (phi_t e)
  | _, _ =>
      let a := a self in let alpha := _alpha self in let beta := _beta self in
      with_floats e (fun R z =>
        let r := sqrt (R ** 2 + z ** 2) in
        - z / r ** alpha * a ** (alpha - 3) / (3 - alpha)
        * hyp2f1 (3 - alpha) (beta - alpha) (4 - alpha) (- r / a))
  end.

Definition TwoPowerSphericalPotential__mass
           (pos : list pyval) (kw : list (string * pyval)) : result float :=
  e <- bind "_mass" (signature TwoPowerSphericalPotential M_mass) pos kw ;;
  let a := a self in let alpha := _alpha self in let beta := _beta self in
  with_mass_radius e (fun r =>
    (r / a) ** (3 - alpha) / (3 - alpha)
    * hyp2f1 (3 - alpha) (- alpha + beta) (4 - alpha) (- r / a)).

(** *** class DehnenSphericalPotential *)

(** The delegate is called as [self.integerSelf._R2deriv(self, R, z,
    phi=phi, t=t)]: three positional arguments, the first one [self]. *)
Definition DehnenSphericalPotential__R2deriv
           (pos : list pyval) (kw : list (string * pyval)) : result float :=
  e <- bind "_R2deriv" (signature DehnenSphericalPotential M_R2deriv) pos kw ;;
  match negb (truthy (arg e "_forceFloatEval")), sub with
  | true, Some integerSelf_evaluator =>
      integerSelf_evaluator M_R2deriv
        [VObj self; arg e "R"; arg e "z"] (phi_t e)
  | _, _ =>
      let a := a self in let alpha := _alpha self in
      with_floats e (fun R z =>
        let r := sqrt (R ** 2 + z ** 2) in
        ((1 + a / r) ** alpha
         * (2 * R ** 4 - z ** 2 * (z ** 2 + a * r)
            + R ** 2 * (z ** 2 + a * r * (-1 + alpha))))
        / (r ** 3 * (a + r) ** 4 * (-3 + alpha)))
  end.

Definition DehnenSphericalPotential__z2deriv
           (pos : list pyval) (kw : list (string * pyval)) : result float :=
  e <- bind "_z2deriv" (signature DehnenSphericalPotential M_z2deriv) pos kw ;;
  let a := a self in let alpha := _alpha self in
  with_floats e (fun R z =>
    let r := sqrt (R ** 2 + z ** 2) in
    ((1 + a / r) ** alpha
     * (R ** 4 - 2 * z ** 4 + R ** 2 * (- z ** 2 + a * r)
        - a * z ** 2 * r * (-1 + alpha)))
    / (r ** 3 * (a + r) ** 4 * (3 - alpha))).

Definition DehnenSphericalPotential__Rzderiv
           (pos : list pyval) (kw : list (string * pyval)) : result float :=
  e <- bind "_Rzderiv" (signature DehnenSphericalPotential M_Rzderiv) pos kw ;;
  match sub with
  | Some integerSelf_evaluator =>
      integerSelf_evaluator M_Rzderiv
        [VObj self; arg e "R"; arg e "z"] (phi_t e)
  | None =>
      let a := a self in let alpha := _alpha self in
      with_floats e (fun R z =>
        let r := sqrt (R ** 2 + z ** 2) in
        let p := R * z * (1 + a / r) ** alpha * (3 * r ** 2 + a * alpha * r) in
        let q := r ** 3 * (a + r) ** 4 * (alpha - 3) in
        p / q)
  end.

(** *** class TwoPowerIntegerSphericalPotential *)

(** [super(TwoPowerIntegerSphericalPotential, self).<m>(R,z,phi=phi,t=t,
    _forceFloatEval=True)] *)
Definition phi_t_forced (e : env) : list (string * pyval) :=
  phi_t e ++ [("_forceFloatEval", VBool true)]%string.

Definition TwoPowerIntegerSphericalPotential__evaluate
           (pos : list pyval) (kw : list (string * pyval)) : result float :=
  e <- bind "_evaluate" (signature TwoPowerIntegerSphericalPotential M_evaluate) pos kw ;;
  match sub with
  | Some integerSelf_evaluator =>
      integerSelf_evaluator M_evaluate [arg e "R"; arg e "z"] (phi_t e)
  | None =>
      TwoPowerSphericalPotential__evaluate [arg e "R"; arg e "z"] (phi_t_forced e)
  end.

Definition TwoPowerIntegerSphericalPotential__Rforce
           (pos : list pyval) (kw : list (string * pyval)) : result float :=
  e <- bind "_Rforce" (signature TwoPowerIntegerSphericalPotential M_Rforce) pos kw ;;
  match sub with
  | Some integerSelf_evaluator =>
      integerSelf_evaluator M_Rforce [arg e "R"; arg e "z"] (phi_t e)
  | None =>
      TwoPowerSphericalPotential__Rforce [arg e "R"; arg e "z"] (phi_t_forced e)
  end.

Definition TwoPowerIntegerSphericalPotential__zforce
           (pos : list pyval) (kw : list (string * pyval)) : result float :=
  e <- bind "_zforce" (signature TwoPowerIntegerSphericalPotential M_zforce) pos kw ;;
  match sub with
  | Some integerSelf_evaluator =>
      integerSelf_evaluator M_zforce [arg e "R"; arg e "z"] (phi_t e)
  | None =>
      TwoPowerSphericalPotential__zforce [arg e "R"; arg e "z"] (phi_t_forced e)
  end.

Definition TwoPowerIntegerSphericalPotential__R2deriv
           (pos : list pyval) (kw : list (string * pyval)) : result float :=
  e <- bind "_R2deriv" (signature TwoPowerIntegerSphericalPotential M_R2deriv) pos kw ;;
  match sub with
  | Some integerSelf_evaluator =>
      integerSelf_evaluator M_R2deriv [arg e "R"; arg e "z"] (phi_t e)
  | None =>
      let a := a self in let alpha := _alpha self in let beta := _beta self in
      with_floats e (fun R z =>
        let r := sqrt (R ** 2 + z ** 2) in
        Gamma (beta - 3) / r ** 5
        * (((z ** 2 - 2 * R ** 2) * Gamma (3 - alpha)) / Gamma (beta - alpha)
           + a ** (-3 + beta) * (R ** 2 + z ** 2) ** (1 - beta / 2)
             * ((z ** 2 * (a * (alpha - beta) - r * (beta - 2))
                 + R ** 2 * (r * (beta - 2) * (beta - 1) + 2 * a * (beta - alpha)))
                * hyp2f1 (-2 + beta) (beta - alpha + 1) beta (- (a / r))
                / Gamma beta
                + (a * (R ** 2 * (2 + alpha * (-3 + beta)) - z ** 2 * (beta - 2))
                   + r * (- z ** 2 + R ** 2 * (beta - 1)) * (beta - 2))
                  * (-2 + beta)
                  * hyp2f1 (beta - 1) (beta - alpha + 1) beta (- (a / r))
                  / Gamma beta)))
  end.

(** *** class HernquistPotential *)

Definition HernquistPotential__evaluate
           (pos : list pyval) (kw : list (string * pyval)) : result float :=
  e <- bind "_evaluate" (signature HernquistPotential M_evaluate) pos kw ;;
  let a := a self in
  with_floats e (fun R z => -1 / (1 + sqrt (R ** 2 + z ** 2) / a) / 2 / a).

Definition HernquistPotential__Rforce
           (pos : list pyval) (kw : list (string * pyval)) : result float :=
  e <- bind "_Rforce" (signature HernquistPotential M_Rforce) pos kw ;;
  let a := a self in
  with_floats e (fun R z =>
    let r := sqrt (R ** 2 + z ** 2) in
    - R / a / r / (1 + r / a) ** 2 / 2 / a).

Definition HernquistPotential__zforce
           (pos : list pyval) (kw : list (string * pyval)) : result float :=
  e <- bind "_zforce" (signature HernquistPotential M_zforce) pos kw ;;
  let a := a self in
  with_floats e (fun R z =>
    let r := sqrt (R ** 2 + z ** 2) in
    - z / a / r / (1 + r / a) ** 2 / 2 / a).

Definition HernquistPotential__R2deriv
           (pos : list pyval) (kw : list (string * pyval)) : result float :=
  e <- bind "_R2deriv" (signature HernquistPotential M_R2deriv) pos kw ;;
  let a := a self in
  with_floats e (fun R z =>
    let r := sqrt (R ** 2 + z ** 2) in
    (a * z ** 2 + (z ** 2 - 2 * R ** 2) * r) / r ** 3 / (a + r) ** 3 / 2).

Definition HernquistPotential__Rzderiv
           (pos : list pyval) (kw : list (string * pyval)) : result float :=
  e <- bind "_Rzderiv" (signature HernquistPotential M_Rzderiv) pos kw ;;
  let a := a self in
  with_floats e (fun R z =>
    let r := sqrt (R ** 2 + z ** 2) in
    - R * z * (a + 3 * r) * (r * (a + r)) ** (-3) / 2).

Definition HernquistPotential__mass
           (pos : list pyval) (kw : list (string * pyval)) : result float :=
  e <- bind "_mass" (signature HernquistPotential M_mass) pos kw ;;
  let a := a self in
  with_mass_radius e (fun r => (r / a) ** 2 / 2 / (1 + r / a) ** 2).

(** *** class JaffePotential *)

Definition JaffePotential__evaluate
           (pos : list pyval) (kw : list (string * pyval)) : result float :=
  e <- bind "_evaluate" (signature JaffePotential M_evaluate) pos kw ;;
  let a := a self in
  with_floats e (fun R z => - ln (1 + a / sqrt (R ** 2 + z ** 2)) / a).

Definition JaffePotential__Rforce
           (pos : list pyval) (kw : list (string * pyval)) : result float :=
  e <- bind "_Rforce" (signature JaffePotential M_Rforce) pos kw ;;
  with_floats e (fun R z =>
    let sqrtRz := sqrt (R ** 2 + z ** 2) in
    - R / sqrtRz ** 3 / (1 + a self / sqrtRz)).

Definition JaffePotential__zforce
           (pos : list pyval) (kw : list (string * pyval)) : result float :=
  e <- bind "_zforce" (signature JaffePotential M_zforce) pos kw ;;
  with_floats e (fun R z =>
    let sqrtRz := sqrt (R ** 2 + z ** 2) in
    - z / sqrtRz ** 3 / (1 + a self / sqrtRz)).

Definition JaffePotential__R2deriv
           (pos : list pyval) (kw : list (string * pyval)) : result float :=
  e <- bind "_R2deriv" (signature JaffePotential M_R2deriv) pos kw ;;
  let a := a self in
  with_floats e (fun R z =>
    let sqrtRz := sqrt (R ** 2 + z ** 2) in
    (a * (z ** 2 - R ** 2) + (z ** 2 - 2 * R ** 2) * sqrtRz)
    / sqrtRz ** 4 / (a + sqrtRz) ** 2).

Definition JaffePotential__Rzderiv
           (pos : list pyval) (kw : list (string * pyval)) : result float :=
  e <- bind "_Rzderiv" (signature JaffePotential M_Rzderiv) pos kw ;;
  let a := a self in
  with_floats e (fun R z =>
    let sqrtRz := sqrt (R ** 2 + z ** 2) in
    - R * z * (2 * a + 3 * sqrtRz) * sqrtRz ** (-4) * (a + sqrtRz) ** (-2)).

Definition JaffePotential__mass
           (pos : list pyval) (kw : list (string * pyval)) : result float :=
  e <- bind "_mass" (signature JaffePotential M_mass) pos kw ;;
  let a := a self in
  with_mass_radius e (fun r => r / a / (1 + r / a)).

(** *** class NFWPotential *)

Definition NFWPotential__evaluate
           (pos : list pyval) (kw : list (string * pyval)) : result float :=
  e <- bind "_evaluate" (signature NFWPotential M_evaluate) pos kw ;;
  with_floats e (fun R z =>
    let r := sqrt (R ** 2 + z ** 2) in
    - ln (1 + r / a self) / r).

Definition NFWPotential__Rforce
           (pos : list pyval) (kw : list (string * pyval)) : result float :=
  e <- bind "_Rforce" (signature NFWPotential M_Rforce) pos kw ;;
  with_floats e (fun R z =>
    let Rz := R ** 2 + z ** 2 in
    let sqrtRz := sqrt Rz in
    R * (1 / Rz / (a self + sqrtRz) - ln (1 + sqrtRz / a self) / sqrtRz / Rz)).

Definition NFWPotential__zforce
           (pos : list pyval) (kw : list (string * pyval)) : result float :=
  e <- bind "_zforce" (signature NFWPotential M_zforce) pos kw ;;
  with_floats e (fun R z =>
    let Rz := R ** 2 + z ** 2 in
    let sqrtRz := sqrt Rz in
    z * (1 / Rz / (a self + sqrtRz) - ln (1 + sqrtRz / a self) / sqrtRz / Rz)).

Definition NFWPotential__R2deriv
           (pos : list pyval) (kw : list (string * pyval)) : result float :=
  e <- bind "_R2deriv" (signature NFWPotential M_R2deriv) pos kw ;;
  with_floats e (fun R z =>
    let Rz := R ** 2 + z ** 2 in
    let sqrtRz := sqrt Rz in
    (3 * R ** 4 + 2 * R ** 2 * (z ** 2 + a self * sqrtRz)
     - z ** 2 * (z ** 2 + a self * sqrtRz)
     - (2 * R ** 2 - z ** 2)
       * (a self ** 2 + R ** 2 + z ** 2 + 2 * a self * sqrtRz)
       * ln (1 + sqrtRz / a self))
    / Rz ** 2.5 / (a self + sqrtRz) ** 2).

Definition NFWPotential__Rzderiv
           (pos : list pyval) (kw : list (string * pyval)) : result float :=
  e <- bind "_Rzderiv" (signature NFWPotential M_Rzderiv) pos kw ;;
  with_floats e (fun R z =>
    let Rz := R ** 2 + z ** 2 in
    let sqrtRz := sqrt Rz in
    - R * z
    * (-4 * Rz - 3 * a self * sqrtRz
       + 3 * (a self ** 2 + Rz + 2 * a self * sqrtRz) * ln (1 + sqrtRz / a self))
    * Rz ** (-2.5) * (a self + sqrtRz) ** (-2)).

Definition NFWPotential__mass
           (pos : list pyval) (kw : list (string * pyval)) : result float :=
  e <- bind "_mass" (signature NFWPotential M_mass) pos kw ;;
  with_mass_radius e (fun r =>
    ln (1 + r / a self) - r / a self / (1 + r / a self)).

(** *** Attribute lookup on [self] *)

(** Modelled from the spec: the base class [Potential] is not part of the
    file.  The spec lists what it supplies (amplitude storage and scaling,
    normalisation, unit conversion) and no evaluator is among it, so a
    lookup that no class of this file answers ends in [AttributeError]. *)
Definition no_attribute (m : meth) : result float :=
  Raise (AttributeError (meth_name m)).

(** [self._R2deriv(...)] *)
Definition self__R2deriv (pos : list pyval) (kw : list (string * pyval))
  : result float :=
  match resolve (klass self) M_R2deriv with
  | Some DehnenSphericalPotential => DehnenSphericalPotential__R2deriv pos kw
  | Some TwoPowerIntegerSphericalPotential =>
      TwoPowerIntegerSphericalPotential__R2deriv pos kw
  | Some HernquistPotential => HernquistPotential__R2deriv pos kw
  | Some JaffePotential => JaffePotential__R2deriv pos kw
  | Some NFWPotential => NFWPotential__R2deriv pos kw
  | Some TwoPowerSphericalPotential | None => no_attribute M_R2deriv
  end.

(** [TwoPowerSphericalPotential._z2deriv]: the radial second derivative with
    the roles of [R] and [z] exchanged. *)
Definition TwoPowerSphericalPotential__z2deriv
           (pos : list pyval) (kw : list (string * pyval)) : result float :=
  e <- bind "_z2deriv" (signature TwoPowerSphericalPotential M_z2deriv) pos kw ;;
  match resolve (klass self) M_R2deriv with
  | None => no_attribute M_R2deriv
  | Some _ =>
      fabs_z <- (z <- as_float (arg e "z") ;; Ok (Rabs z)) ;;
      self__R2deriv [VFloat fabs_z; arg e "R"]
        (phi_t e ++ [("_forceFloatEval", arg e "_forceFloatEval")]%string)
  end.

(** The [def] of evaluator [m] in class body [c]. *)
Definition method (c : cls) (m : meth)
  : list pyval -> list (string * pyval) -> result float :=
  match c, m with
  | TwoPowerSphericalPotential, M_evaluate => TwoPowerSphericalPotential__evaluate
  | TwoPowerSphericalPotential, M_Rforce => TwoPowerSphericalPotential__Rforce
  | TwoPowerSphericalPotential, M_zforce => TwoPowerSphericalPotential__zforce
  | TwoPowerSphericalPotential, M_z2deriv => TwoPowerSphericalPotential__z2deriv
  | TwoPowerSphericalPotential, M_mass => TwoPowerSphericalPotential__mass
  | DehnenSphericalPotential, M_R2deriv => DehnenSphericalPotential__R2deriv
  | DehnenSphericalPotential, M_z2deriv => DehnenSphericalPotential__z2deriv
  | DehnenSphericalPotential, M_Rzderiv => DehnenSphericalPotential__Rzderiv
  | TwoPowerIntegerSphericalPotential, M_evaluate =>
      TwoPowerIntegerSphericalPotential__evaluate
  | TwoPowerIntegerSphericalPotential, M_Rforce =>
      TwoPowerIntegerSphericalPotential__Rforce
  | TwoPowerIntegerSphericalPotential, M_zforce =>
      TwoPowerIntegerSphericalPotential__zforce
  | TwoPowerIntegerSphericalPotential, M_R2deriv =>
      TwoPowerIntegerSphericalPotential__R2deriv
  | HernquistPotential, M_evaluate => HernquistPotential__evaluate
  | HernquistPotential, M_Rforce => HernquistPotential__Rforce
  | HernquistPotential, M_zforce => HernquistPotential__zforce
  | HernquistPotential, M_R2deriv => HernquistPotential__R2deriv
  | HernquistPotential, M_Rzderiv => HernquistPotential__Rzderiv
  | HernquistPotential, M_mass => HernquistPotential__mass
  | JaffePotential, M_evaluate => JaffePotential__evaluate
  | JaffePotential, M_Rforce => JaffePotential__Rforce
  | JaffePotential, M_zforce => JaffePotential__zforce
  | JaffePotential, M_R2deriv => JaffePotential__R2deriv
  | JaffePotential, M_Rzderiv => JaffePotential__Rzderiv
  | JaffePotential, M_mass => JaffePotential__mass
  | NFWPotential, M_evaluate => NFWPotential__evaluate
  | NFWPotential, M_Rforce => NFWPotential__Rforce
  | NFWPotential, M_zforce => NFWPotential__zforce
  | NFWPotential, M_R2deriv => NFWPotential__R2deriv
  | NFWPotential, M_Rzderiv => NFWPotential__Rzderiv
  | NFWPotential, M_mass => NFWPotential__mass
  | _, _ => fun _ _ => no_attribute m
  end.

(** [self.<m>(...)] for any evaluator [m] *)
Definition invoke : caller :=
  fun m pos kw =>
    match resolve (klass self) m with
    | Some c => method c m pos kw
    | None => no_attribute m
    end.

End Methods.

(** A call on an object: its own evaluators, with the calls on its
    [integerSelf] resolved the same way. *)
Fixpoint call (self : instance) : caller :=
  invoke self
    match self with
    | Instance _ _ _ _ (Some i) => Some (call i)
    | Instance _ _ _ _ None => None
    end.

End Evaluators.

(** ** Constructors *)

Definition set_integerSelf (self : instance) (i : option instance) : instance :=
  Instance (klass self) (a self) (_alpha self) (_beta self) i.

Definition set__alpha (self : instance) (alpha : float) : instance :=
  Instance (klass self) (a self) alpha (_beta self) (integerSelf self).

Definition set__beta (self : instance) (beta : float) : instance :=
  Instance (klass self) (a self) (_alpha self) beta (integerSelf self).

Section Constructors.

(** The module-level name [TwoPowerIntegerSphericalPotential], which the
    constructors of the two classes defined above it look up when they run:
    called with [a], [alpha] and [beta]. *)
Variable TwoPowerIntegerSphericalPotential_ : float -> float -> float -> instance.

(** [TwoPowerSphericalPotential.__init__], run for an object of class
    [self__class__] (the class itself or a subclass). *)
Definition TwoPowerSphericalPotential___init__
           (self__class__ : cls) (a alpha beta : float) : instance :=
  Instance self__class__ a alpha beta
    (if cls_eqb self__class__ TwoPowerSphericalPotential
        && PyNum.eqb alpha (IZR (PyNum.round alpha))
        && PyNum.eqb beta (IZR (PyNum.round beta))
     then Some (TwoPowerIntegerSphericalPotential_
                  a (IZR (PyNum.round alpha)) (IZR (PyNum.round beta)))
     else None).

(** [DehnenSphericalPotential.__init__] *)
Definition DehnenSphericalPotential___init__
           (self__class__ : cls) (a alpha : float) : instance :=
  let self := TwoPowerSphericalPotential___init__ self__class__ a alpha 4 in
  set_integerSelf self
    (if cls_eqb self__class__ DehnenSphericalPotential
        && PyNum.eqb alpha (IZR (PyNum.round alpha))
     then Some (TwoPowerIntegerSphericalPotential_ a (IZR (PyNum.round alpha)) 4)
     else None).

End Constructors.

(** The three elementary classes are neither [TwoPowerSphericalPotential]
    nor [DehnenSphericalPotential], so the inherited constructors do not
    read the name [TwoPowerIntegerSphericalPotential] for them (lemma
    [elementary_init_independent] below); it is bound here to the class
    without its delegates. *)
Definition integer_without_delegate (a alpha beta : float) : instance :=
  Instance TwoPowerIntegerSphericalPotential a alpha beta None.

Definition HernquistPotential___init__ (a : float) : instance :=
  DehnenSphericalPotential___init__ integer_without_delegate
    HernquistPotential a 1.

Definition JaffePotential___init__ (a : float) : instance :=
  DehnenSphericalPotential___init__ integer_without_delegate
    JaffePotential a 2.

(** [NFWPotential.__init__] with [conc=None]. *)
Definition NFWPotential___init__ (a : float) : instance :=
  let self := TwoPowerSphericalPotential___init__ integer_without_delegate
                NFWPotential a 1 3 in
  self.

(** [TwoPowerIntegerSphericalPotential.__init__]: it calls
    [Potential.__init__] only and binds its own delegate. *)
Definition TwoPowerIntegerSphericalPotential___init__
           (a alpha beta : float) : instance :=
  Instance TwoPowerIntegerSphericalPotential a alpha beta
    (if PyNum.eqb alpha 1 && PyNum.eqb beta 4
     then Some (HernquistPotential___init__ a)
     else if PyNum.eqb alpha 2 && PyNum.eqb beta 4
     then Some (JaffePotential___init__ a)
     else if PyNum.eqb alpha 1 && PyNum.eqb beta 3
     then Some (NFWPotential___init__ a)
     else None).

(** [TwoPowerSphericalPotential(a=a, alpha=alpha, beta=beta)] *)
Definition new_TwoPowerSphericalPotential (a alpha beta : float) : instance :=
  TwoPowerSphericalPotential___init__ TwoPowerIntegerSphericalPotential___init__
    TwoPowerSphericalPotential a alpha beta.

(** [DehnenSphericalPotential(a=a, alpha=alpha)] *)
Definition new_DehnenSphericalPotential (a alpha : float) : instance :=
  DehnenSphericalPotential___init__ TwoPowerIntegerSphericalPotential___init__
    DehnenSphericalPotential a alpha.

(** ** The exponent properties *)

(** [self.alpha = alpha]: the object afterwards, and the exception raised,
    if any. *)
Definition setattr_alpha (self : instance) (alpha : float)
  : instance * option pyerr :=
  match klass self with
  | TwoPowerSphericalPotential =>
      let self := set__alpha self alpha in
      (set_integerSelf self
         (if PyNum.eqb alpha (IZR (PyNum.round alpha))
             && PyNum.eqb (_beta self) (IZR (PyNum.round (_beta self)))
          then Some (TwoPowerIntegerSphericalPotential___init__ (a self)
                       (IZR (PyNum.round alpha))
                       (IZR (PyNum.round (_beta self))))
          else None),
       None)
  | DehnenSphericalPotential =>
      let self := set__alpha self alpha in
      (set_integerSelf self
         (if PyNum.eqb alpha (IZR (PyNum.round alpha))
          then Some (TwoPowerIntegerSphericalPotential___init__ (a self)
                       (IZR (PyNum.round alpha)) 4)
          else None),
       None)
  | TwoPowerIntegerSphericalPotential =>
      if negb (PyNum.eqb alpha (IZR (PyNum.int alpha))) then
        (self, Some (ValueError "alpha must be an integer"))
      else
        let self := set__alpha self (IZR (PyNum.int alpha)) in
        (set_integerSelf self
           (if PyNum.eqb alpha (IZR (PyNum.int alpha))
               && PyNum.eqb (_beta self) (IZR (PyNum.int (_beta self)))
            then Some (TwoPowerIntegerSphericalPotential___init__ (a self)
                         (IZR (PyNum.int alpha))
                         (IZR (PyNum.int (_beta self))))
            else None),
         None)
  | HernquistPotential | JaffePotential | NFWPotential =>
      (self, Some (PyException "cannot modify alpha"))
  end.

(** [self.beta = beta] *)
Definition setattr_beta (self : instance) (beta : float)
  : instance * option pyerr :=
  match klass self with
  | TwoPowerSphericalPotential =>
      let self := set__beta self beta in
      (set_integerSelf self
         (if PyNum.eqb (_alpha self) (IZR (PyNum.round (_alpha self)))
             && PyNum.eqb beta (IZR (PyNum.round beta))
          then Some (TwoPowerIntegerSphericalPotential___init__ (a self)
                       (IZR (PyNum.round (_alpha self)))
                       (IZR (PyNum.round beta)))
          else None),
       None)
  | TwoPowerIntegerSphericalPotential =>
      if negb (PyNum.eqb beta (IZR (PyNum.int beta))) then
        (self, Some (ValueError "beta must be an integer"))
      else
        let self := set__beta self (IZR (PyNum.int beta)) in
        (set_integerSelf self
           (if PyNum.eqb (_alpha self) (IZR (PyNum.int (_alpha self)))
               && PyNum.eqb beta (IZR (PyNum.int beta))
            then Some (TwoPowerIntegerSphericalPotential___init__ (a self)
                         (IZR (PyNum.int (_alpha self)))
                         (IZR (PyNum.int beta)))
            else None),
         None)
  | DehnenSphericalPotential | HernquistPotential | JaffePotential
  | NFWPotential =>
      (self, Some (PyException "cannot modify beta"))
  end.

(** ** The density *)

(** [TwoPowerSphericalPotential._dens].  No other class of the file defines
    [_dens], so this is the method that [self._dens] finds on every
    object. *)
Definition TwoPowerSphericalPotential__dens (self : instance)
           (pos : list pyval) (kw : list (string * pyval)) : result float :=
  e <- bind "_dens" sig_Rzphit pos kw ;;
  let a := a self in let alpha := _alpha self in let beta := _beta self in
  with_floats e (fun R z =>
    let r := sqrt (R ** 2 + z ** 2) in
    (a / r) ** alpha / (1 + r / a) ** (beta - alpha) / 4 / PI / a ** 3).

(** ** Vocabulary of the statements *)

(** Structural induction on an object and its chain of delegates. *)
Fixpoint instance_ind' (P : instance -> Prop)
         (Hnone : forall k a0 alpha beta, P (Instance k a0 alpha beta None))
         (Hsome : forall k a0 alpha beta i,
             P i -> P (Instance k a0 alpha beta (Some i)))
         (o : instance) : P o :=
  match o with
  | Instance k a0 alpha beta None => Hnone k a0 alpha beta
  | Instance k a0 alpha beta (Some i) =>
      Hsome k a0 alpha beta i (instance_ind' P Hnone Hsome i)
  end.

(** The keyword arguments of a plain query: none, or [phi=] and [t=] as
    the evaluators pass them on to their delegate. *)
Definition plain_call (kw : list (string * pyval)) : Prop :=
  kw = [] \/ exists p t, kw = [("phi", p); ("t", t)]%string.

(** [_forceFloatEval=True] *)
Definition forced : list (string * pyval) :=
  [("_forceFloatEval", VBool true)]%string.


(** Two queries return numbers, and the same one. *)
Definition same_value (x y : result float) : Prop :=
  exists v, x = Ok v /\ y = Ok v.


(** Both force components of an object are one factor times [R] and [z]. *)
Definition radial_forces (Gamma : float -> float)
           (hyp2f1 : float -> float -> float -> float -> float)
           (o : instance) : Prop :=
  forall (R z : float) kw, plain_call kw ->
  exists f,
    call Gamma hyp2f1 o M_Rforce [VFloat R; VFloat z] kw = Ok (R * f)
    /\ call Gamma hyp2f1 o M_zforce [VFloat R; VFloat z] kw = Ok (z * f).

(** The scalar factor of the general evaluator's force, [force = (R, z) * f],
    as the code computes it: the hypergeometric argument is [-r/a]. *)
Definition force_factor (hyp2f1 : float -> float -> float -> float -> float)
           (a alpha beta r : float) : float :=
  - a ** (alpha - 3) / (3 - alpha)
  * hyp2f1 (3 - alpha) (beta - alpha) (4 - alpha) (- r / a)
  * r ** (- alpha).

(** The same factor as the specification words it: the hypergeometric
    argument is [-a/r]. *)
Definition spec_force_factor (hyp2f1 : float -> float -> float -> float -> float)
           (a alpha beta r : float) : float :=
  - a ** (alpha - 3) / (3 - alpha)
  * hyp2f1 (3 - alpha) (beta - alpha) (4 - alpha) (- a / r)
  * r ** (- alpha).

(** Instances of the two special functions where they have elementary
    values: the gamma function at the positive integers,
    [Gamma n = (n-1)!], and the hypergeometric function on the diagonal
    [b = c], [2F1(a, b; b; z) = (1-z)^(-a)].  Off these domains the two
    definitions are arbitrary; they are used at points of the domains only. *)
Definition Gamma_factorial (x : float) : float :=
  INR (fact (Z.to_nat (Int_part x - 1))).

Definition hyp2f1_binomial (a b c z : float) : float :=
  Rpower (1 - z) (- a).

(** The hypergeometric function where it is a logarithm:
    [2F1(2, 2; 3; z) = 2 (ln (1-z) + z/(1-z)) / z^2] and
    [2F1(1, 2; 3; z) = 2F1(2, 1; 3; z) = - 2 (z + ln (1-z)) / z^2].  The
    first value is given where the first two parameters are equal, the
    second one elsewhere; the definition is used at these parameters only. *)
Definition hyp2f1_logarithmic (a b c z : float) : float :=
  if Req_dec_T a b
  then 2 * (ln (1 - z) + z / (1 - z)) / (z * z)
  else - 2 * (z + ln (1 - z)) / (z * z).

(** The forces of an object are differentiable functions of the point, and
    their derivatives at [(R, z)] are minus the second derivatives that the
    object returns there. *)
Definition forces_differentiate_to_second_derivatives_at
           (Gamma : float -> float)
           (hyp2f1 : float -> float -> float -> float -> float)
           (o : instance) (R z : float) : Prop :=
  exists (FR Fz : float -> float -> float) (PhiRR Phizz PhiRz : float),
    (forall x y, call Gamma hyp2f1 o M_Rforce [VFloat x; VFloat y] []
                 = Ok (FR x y))
    /\ (forall x y, call Gamma hyp2f1 o M_zforce [VFloat x; VFloat y] []
                    = Ok (Fz x y))
    /\ call Gamma hyp2f1 o M_R2deriv [VFloat R; VFloat z] [] = Ok PhiRR
    /\ call Gamma hyp2f1 o M_z2deriv [VFloat R; VFloat z] [] = Ok Phizz
    /\ call Gamma hyp2f1 o M_Rzderiv [VFloat R; VFloat z] [] = Ok PhiRz
    /\ derivable_pt_lim (fun x => FR x z) R (- PhiRR)
    /\ derivable_pt_lim (fun y => Fz R y) z (- Phizz)
    /\ derivable_pt_lim (fun y => FR R y) z (- PhiRz)
    /\ derivable_pt_lim (fun x => Fz x z) R (- PhiRz).

(** * Properties *)

(** ** Python numbers *)

Lemma Int_part_IZR (n : Z) : Int_part (IZR n) = n.
Proof. symmetry; apply Int_part_spec; lra. Qed.

Lemma round_IZR (n : Z) : PyNum.round (IZR n) = n.
Proof.
  unfold PyNum.round; rewrite Int_part_IZR.
  destruct (Rlt_dec (IZR n - IZR n) (1 / 2)) as [_ | H]; [reflexivity | lra].
Qed.

Lemma int_IZR (n : Z) : PyNum.int (IZR n) = n.
Proof.
  unfold PyNum.int; destruct (Rle_dec 0 (IZR n)) as [_ | _].
  - apply Int_part_IZR.
  - rewrite <- opp_IZR, Int_part_IZR; lia.
Qed.

(** [int(x)] is the integer next to [x] on the side of zero. *)
Lemma int_unique (x : float) (n : Z) :
  (0 <= x /\ IZR n <= x < IZR n + 1) \/ (x <= 0 /\ IZR n - 1 < x <= IZR n) ->
  PyNum.int x = n.
Proof.
  unfold PyNum.int; intros [[Hx Hn] | [Hx Hn]].
  - destruct (Rle_dec 0 x) as [_ | H]; [| lra].
    symmetry; apply Int_part_spec; lra.
  - destruct (Rle_dec 0 x) as [H | _].
    + assert (x = 0) by lra; subst x.
      assert (0 <= n < 1)%Z as Hz
          by (split; [apply le_IZR | apply lt_IZR]; lra).
      replace n with 0%Z by lia; apply (Int_part_IZR 0).
    + assert (Int_part (- x) = (- n)%Z) as ->; [| lia].
      symmetry; apply Int_part_spec; rewrite opp_IZR; lra.
Qed.

Lemma eqb_refl (x : float) : PyNum.eqb x x = true.
Proof. unfold PyNum.eqb; destruct (Req_dec_T x x); congruence. Qed.

Lemma eqb_neq (x y : float) : x <> y -> PyNum.eqb x y = false.
Proof. unfold PyNum.eqb; destruct (Req_dec_T x y); congruence. Qed.

Lemma eqb_eq (x y : float) : PyNum.eqb x y = true <-> x = y.
Proof.
  unfold PyNum.eqb; destruct (Req_dec_T x y); split; congruence.
Qed.

(** An integer exponent is repeated multiplication, whatever the base. *)
Lemma pow_IZR (x : float) (n : Z) : x ** IZR n = powerRZ x n.
Proof.
  unfold PyNum.pow; destruct (Rlt_dec 0 x) as [Hx | _].
  - symmetry; apply powerRZ_Rpower; exact Hx.
  - rewrite Int_part_IZR.
    destruct (Req_dec_T (IZR n) (IZR n)) as [_ | H]; [reflexivity | congruence].
Qed.

Lemma pow_2 (x : float) : x ** 2 = x * x.
Proof. rewrite pow_IZR; simpl; ring. Qed.

Lemma pow_pos (x y : float) : 0 < x -> x ** y = Rpower x y.
Proof.
  intros Hx; unfold PyNum.pow; destruct (Rlt_dec 0 x); [reflexivity | lra].
Qed.

Lemma pow_opp (x y : float) : 0 < x -> x ** (- y) = / (x ** y).
Proof. intros Hx; rewrite !pow_pos by exact Hx; apply Rpower_Ropp. Qed.

Lemma pow_1 (x : float) : x ** 1 = x.
Proof. rewrite pow_IZR; simpl; ring. Qed.

Lemma radius_sqr (R z : float) : radius R z = sqrt (R * R + z * z).
Proof. unfold radius; rewrite !pow_2; reflexivity. Qed.

Lemma radius_nonneg (R z : float) : 0 <= radius R z.
Proof. apply sqrt_pos. Qed.

(** On the axis [z = 0] the radius is [R]. *)
Lemma radius_axis (R : float) : 0 <= R -> radius R 0 = R.
Proof.
  intros HR; rewrite radius_sqr.
  replace (R * R + 0 * 0) with (R * R) by ring.
  apply sqrt_square; exact HR.
Qed.

(** ** Construction and the delegate *)

Lemma not_integer_between (x : float) (n m : Z) :
  IZR n < x < IZR n + 1 -> x <> IZR m.
Proof.
  intros [Hlo Hhi] ->.
  apply lt_IZR in Hlo.
  rewrite <- (plus_IZR n 1) in Hhi; apply lt_IZR in Hhi.
  lia.
Qed.

(** The inherited constructors do not read the name
    [TwoPowerIntegerSphericalPotential] when they run for an elementary
    class. *)
Lemma elementary_init_independent
      (I J : float -> float -> float -> instance) (k : cls) (a0 alpha : float) :
  k <> TwoPowerSphericalPotential -> k <> DehnenSphericalPotential ->
  DehnenSphericalPotential___init__ I k a0 alpha
  = DehnenSphericalPotential___init__ J k a0 alpha
  /\ forall beta,
      TwoPowerSphericalPotential___init__ I k a0 alpha beta
      = TwoPowerSphericalPotential___init__ J k a0 alpha beta.
Proof.
  intros H1 H2; destruct k; try congruence; split; reflexivity.
Qed.

Lemma HernquistPotential_object (a0 : float) :
  HernquistPotential___init__ a0 = Instance HernquistPotential a0 1 4 None.
Proof. reflexivity. Qed.

Lemma JaffePotential_object (a0 : float) :
  JaffePotential___init__ a0 = Instance JaffePotential a0 2 4 None.
Proof. reflexivity. Qed.

Lemma NFWPotential_object (a0 : float) :
  NFWPotential___init__ a0 = Instance NFWPotential a0 1 3 None.
Proof. reflexivity. Qed.

(** Integer exponents (1, 4): the delegate of the integer class is
    Hernquist. *)
Lemma Integer_1_4_object (a0 : float) :
  TwoPowerIntegerSphericalPotential___init__ a0 1 4
  = Instance TwoPowerIntegerSphericalPotential a0 1 4
      (Some (HernquistPotential___init__ a0)).
Proof.
  unfold TwoPowerIntegerSphericalPotential___init__.
  rewrite !eqb_refl; reflexivity.
Qed.

(** Integer exponents (1, 3): the delegate of the integer class is NFW. *)
Lemma Integer_1_3_object (a0 : float) :
  TwoPowerIntegerSphericalPotential___init__ a0 1 3
  = Instance TwoPowerIntegerSphericalPotential a0 1 3
      (Some (NFWPotential___init__ a0)).
Proof.
  unfold TwoPowerIntegerSphericalPotential___init__.
  rewrite (eqb_neq 3 4) by lra.
  rewrite !eqb_refl, (eqb_neq 1 2) by lra; reflexivity.
Qed.

(** Integer exponents: the general class binds the integer class. *)
Lemma new_TwoPowerSphericalPotential_integer (a0 : float) (n m : Z) :
  new_TwoPowerSphericalPotential a0 (IZR n) (IZR m)
  = Instance TwoPowerSphericalPotential a0 (IZR n) (IZR m)
      (Some (TwoPowerIntegerSphericalPotential___init__ a0 (IZR n) (IZR m))).
Proof.
  unfold new_TwoPowerSphericalPotential, TwoPowerSphericalPotential___init__.
  rewrite !round_IZR, !eqb_refl; reflexivity.
Qed.

Lemma new_DehnenSphericalPotential_integer (a0 : float) (n : Z) :
  new_DehnenSphericalPotential a0 (IZR n)
  = Instance DehnenSphericalPotential a0 (IZR n) 4
      (Some (TwoPowerIntegerSphericalPotential___init__ a0 (IZR n) 4)).
Proof.
  unfold new_DehnenSphericalPotential, DehnenSphericalPotential___init__.
  rewrite !round_IZR, !eqb_refl; reflexivity.
Qed.

(** A fractional exponent: no delegate. *)
Lemma new_TwoPowerSphericalPotential_fractional
      (a0 alpha beta : float) (n : Z) :
  IZR n < alpha < IZR n + 1 ->
  new_TwoPowerSphericalPotential a0 alpha beta
  = Instance TwoPowerSphericalPotential a0 alpha beta None.
Proof.
  intros H.
  unfold new_TwoPowerSphericalPotential, TwoPowerSphericalPotential___init__.
  rewrite (eqb_neq alpha) by (eapply not_integer_between; eassumption).
  reflexivity.
Qed.

(** ** Argument binding raises nothing but [TypeError] *)

Lemma bind_keywords_TypeError fn ps kw :
  forall e err, bind_keywords fn ps kw e = Raise err -> is_TypeError err = true.
Proof.
  induction kw as [| [k v] kw IH]; intros e err; simpl.
  - discriminate.
  - destruct (negb (has_param k ps)).
    + intros [= <-]; reflexivity.
    + destruct (lookup k e).
      * intros [= <-]; reflexivity.
      * apply IH.
Qed.

Lemma bind_defaults_TypeError fn ps e :
  forall err, bind_defaults fn ps e = Raise err -> is_TypeError err = true.
Proof.
  induction ps as [| [k d] ps IH]; intros err; simpl.
  - discriminate.
  - destruct (lookup k e) as [v |]; [| destruct d as [v |]]; simpl.
    + destruct (bind_defaults fn ps e); simpl; [discriminate |].
      intros [= <-]; apply IH; reflexivity.
    + destruct (bind_defaults fn ps e); simpl; [discriminate |].
      intros [= <-]; apply IH; reflexivity.
    + intros [= <-]; reflexivity.
Qed.

Lemma bind_TypeError fn ps pos kw err :
  bind fn ps pos kw = Raise err -> is_TypeError err = true.
Proof.
  unfold bind.
  destruct (bind_keywords fn ps kw (bind_positional ps pos)) as [e | e0] eqn:Hk;
    simpl.
  - destruct (List.length ps <? List.length pos)%nat.
    + intros [= <-]; reflexivity.
    + apply bind_defaults_TypeError.
  - intros [= <-]; eapply bind_keywords_TypeError; eassumption.
Qed.

Lemma as_float_TypeError (v : pyval) (err : pyerr) :
  as_float v = Raise err -> is_TypeError err = true.
Proof. destruct v; simpl; intros [= <-]; reflexivity. Qed.

(** ** Calls *)

(** Evaluate the calls of the goal down to their formula; the comparisons
    of floats and the powers are left as they are. *)
Ltac run_call := cbn -[PyNum.eqb PyNum.pow PyNum.round PyNum.int].

Section Properties.

Variable Gamma : float -> float.
Variable hyp2f1 : float -> float -> float -> float -> float.

#[local] Abbreviation call := (call Gamma hyp2f1).

(** *** The vertical second derivative of the integer class *)

(** The inherited [_z2deriv] calls [self._R2deriv] with the keyword
    [_forceFloatEval], which the [_R2deriv] of the integer class does not
    take. *)
Lemma Integer_z2deriv_plain (a0 alpha beta : float) (i : option instance)
      (R z : float) (kw : list (string * pyval)) :
  plain_call kw ->
  call (Instance TwoPowerIntegerSphericalPotential a0 alpha beta i)
       M_z2deriv [VFloat R; VFloat z] kw
  = Raise (TypeError_unexpected_keyword "_R2deriv" "_forceFloatEval").
Proof.
  intros [-> | (p & t & ->)]; destruct i; reflexivity.
Qed.

Lemma Integer_z2deriv_never_returns (a0 alpha beta : float)
      (i : option instance) (pos : list pyval) (kw : list (string * pyval)) :
  exists err,
    call (Instance TwoPowerIntegerSphericalPotential a0 alpha beta i)
         M_z2deriv pos kw = Raise err
    /\ is_TypeError err = true.
Proof.
  set (self := Instance TwoPowerIntegerSphericalPotential a0 alpha beta i).
  assert (forall sub,
             exists err,
               TwoPowerSphericalPotential__z2deriv Gamma hyp2f1 self sub pos kw
               = Raise err /\ is_TypeError err = true) as H.
  { intros sub; unfold TwoPowerSphericalPotential__z2deriv.
    destruct (bind "_z2deriv"
                (signature TwoPowerSphericalPotential M_z2deriv) pos kw)
      as [e | err] eqn:Hb; simpl.
    - destruct (as_float (arg e "z")) as [x | err] eqn:Hz; simpl.
      + eexists; split; reflexivity.
      + exists err; split; [reflexivity |].
        eapply as_float_TypeError; eassumption.
    - exists err; split; [reflexivity |].
      eapply bind_TypeError; eassumption. }
  subst self; destruct i; apply H.
Qed.

(** C10: on every object of the integer class, with or without a delegate
    and whatever its exponents, the vertical second derivative raises
    [TypeError]: the inherited implementation passes the keyword
    [_forceFloatEval] to [self._R2deriv], which does not take it.  A query
    at floats [R], [z] fails with exactly that error, and no call of
    [_z2deriv], whatever its arguments, returns a value. *)
Theorem integer_z2deriv_raises_TypeError
        (a0 alpha beta : float) (i : option instance) (R z : float) :
  call (Instance TwoPowerIntegerSphericalPotential a0 alpha beta i)
       M_z2deriv [VFloat R; VFloat z] []
  = Raise (TypeError_unexpected_keyword "_R2deriv" "_forceFloatEval")
  /\ forall pos kw, exists err,
      call (Instance TwoPowerIntegerSphericalPotential a0 alpha beta i)
           M_z2deriv pos kw = Raise err
      /\ is_TypeError err = true.
Proof.
  split.
  - apply Integer_z2deriv_plain; left; reflexivity.
  - intros pos kw; apply Integer_z2deriv_never_returns.
Qed.

(** *** Forwarding of the second derivatives by the Dehnen class *)

(** C4 (not met by the code): a Dehnen object with an integer [alpha] has a
    delegate, and its [_R2deriv] and [_Rzderiv] call the delegate with
    [self] as an additional first positional argument.  The call of
    [_R2deriv] binds [self], [R], [z] to the parameters [R], [z], [phi] and
    then meets the keyword [phi]: [TypeError].  [_Rzderiv] is looked up on
    the integer class, which has no such method.  Neither query returns the
    delegate's value. *)
Theorem dehnen_forwarding_raises (a0 : float) (n : Z) (R z : float) :
  call (new_DehnenSphericalPotential a0 (IZR n)) M_R2deriv
       [VFloat R; VFloat z] []
  = Raise (TypeError_multiple_values "_R2deriv" "phi")
  /\ call (new_DehnenSphericalPotential a0 (IZR n)) M_Rzderiv
          [VFloat R; VFloat z] []
     = Raise (AttributeError "_Rzderiv").
Proof.
  rewrite new_DehnenSphericalPotential_integer.
  unfold TwoPowerIntegerSphericalPotential___init__.
  match goal with
  | |- context [Instance TwoPowerIntegerSphericalPotential _ _ _ ?d] =>
      generalize d
  end.
  intros [d |]; split; reflexivity.
Qed.

(** *** The exponent properties *)

(** C7: assigning to a frozen exponent (both exponents of Hernquist, Jaffe
    and NFW, [beta] of Dehnen) raises, whatever the object and the value,
    and returns the object as it was: exponents and delegate unchanged. *)
Theorem frozen_exponent_assignment_raises
        (a0 alpha beta : float) (i : option instance) (v : float) :
  (forall k, In k [HernquistPotential; JaffePotential; NFWPotential] ->
     setattr_alpha (Instance k a0 alpha beta i) v
     = (Instance k a0 alpha beta i, Some (PyException "cannot modify alpha")))
  /\ (forall k, In k [DehnenSphericalPotential; HernquistPotential;
                      JaffePotential; NFWPotential] ->
        setattr_beta (Instance k a0 alpha beta i) v
        = (Instance k a0 alpha beta i, Some (PyException "cannot modify beta"))).
Proof.
  split; intros k Hk; simpl in Hk;
    repeat (destruct Hk as [<- | Hk]; [reflexivity |]); contradiction.
Qed.

(** C6: on the integer class, assigning a value that is not an integer
    ([v != int(v)]) to [alpha] or to [beta] raises [ValueError] and returns
    the object as it was: the stored exponent is neither replaced nor
    truncated, the delegate is not rebound. *)
Theorem integer_exponent_assignment_rejects_fraction
        (a0 alpha beta : float) (i : option instance) (v : float) :
  v <> IZR (PyNum.int v) ->
  let self := Instance TwoPowerIntegerSphericalPotential a0 alpha beta i in
  setattr_alpha self v = (self, Some (ValueError "alpha must be an integer"))
  /\ setattr_beta self v = (self, Some (ValueError "beta must be an integer")).
Proof.
  intros Hv self; unfold setattr_alpha, setattr_beta; simpl.
  rewrite (eqb_neq v) by exact Hv; split; reflexivity.
Qed.

(** *** Known values *)

(** C9: with scale radius 1, the Hernquist potential at the centre is
    [-0.5], the NFW potential at [(1, 0)] is [-ln 2] and the Jaffe enclosed
    mass at [(1, 0)] is [0.5].  (The amplitude is a factor applied by the
    base class; with unit amplitude these are the values of the public
    queries.) *)
Theorem known_closed_form_values :
  call (HernquistPotential___init__ 1) M_evaluate [VFloat 0; VFloat 0] []
  = Ok (- 0.5)
  /\ call (NFWPotential___init__ 1) M_evaluate [VFloat 1; VFloat 0] []
     = Ok (- ln 2)
  /\ call (JaffePotential___init__ 1) M_mass [VFloat 1; VFloat 0] []
     = Ok 0.5.
Proof.
  repeat split; run_call; apply f_equal.
  - rewrite !pow_2.
    replace (0 * 0 + 0 * 0) with 0 by ring.
    rewrite sqrt_0; lra.
  - rewrite !pow_2.
    replace (1 * 1 + 0 * 0) with 1 by ring.
    rewrite sqrt_1.
    replace (1 + 1 / 1) with 2 by lra.
    lra.
  - rewrite (radius_axis 1) by lra; lra.
Qed.

(** *** Forces *)

Ltac factor f :=
  exists f; split; run_call; apply f_equal; unfold Rdiv;
  repeat match goal with x := _ |- _ => subst x end; ring.

Lemma forces_radial (o : instance) : radial_forces Gamma hyp2f1 o.
Proof.
  induction o as [k a0 alpha beta | k a0 alpha beta i IH] using instance_ind';
    intros R z kw Hkw; pose (r := sqrt (R ** 2 + z ** 2)).
  - destruct Hkw as [-> | (p & t & ->)]; destruct k;
      first
        [ factor (- 1 / r ** alpha * a0 ** (alpha - 3) / (3 - alpha)
                  * hyp2f1 (3 - alpha) (beta - alpha) (4 - alpha) (- r / a0))
        | factor (- 1 / a0 / r / (1 + r / a0) ** 2 / 2 / a0)
        | factor (- 1 / r ** 3 / (1 + a0 / r))
        | factor (1 / (R ** 2 + z ** 2) / (a0 + r)
                  - ln (1 + r / a0) / r / (R ** 2 + z ** 2)) ].
  - destruct Hkw as [-> | (p & t & ->)]; destruct k;
      first
        [ factor (- 1 / a0 / r / (1 + r / a0) ** 2 / 2 / a0)
        | factor (- 1 / r ** 3 / (1 + a0 / r))
        | factor (1 / (R ** 2 + z ** 2) / (a0 + r)
                  - ln (1 + r / a0) / r / (R ** 2 + z ** 2))
        | run_call; apply IH; right; do 2 eexists; reflexivity ].
Qed.

(** C8: for every object of the family (any class, any exponents, with or
    without a delegate) and every point off the centre, the radial and the
    vertical force are returned and satisfy [z * F_R = R * F_z]: they are
    one radial magnitude [F] times the direction cosines [R/r] and [z/r]. *)
Theorem forces_point_along_radius (o : instance) (R z : float) :
  0 < radius R z ->
  exists FR Fz F,
    call o M_Rforce [VFloat R; VFloat z] [] = Ok FR
    /\ call o M_zforce [VFloat R; VFloat z] [] = Ok Fz
    /\ z * FR = R * Fz
    /\ FR = R / radius R z * F
    /\ Fz = z / radius R z * F.
Proof.
  intros Hr.
  destruct (forces_radial o R z []) as (f & HR & Hz); [left; reflexivity |].
  exists (R * f), (z * f), (f * radius R z).
  repeat split; try assumption; try ring; field; lra.
Qed.

(** The general formulas of [TwoPowerSphericalPotential]: evaluated when
    the caller forces them, and when the object has no delegate. *)
Lemma general_forces (a0 alpha beta : float) (i : option instance)
      (R z : float) :
  0 < radius R z ->
  let o := Instance TwoPowerSphericalPotential a0 alpha beta i in
  call o M_Rforce [VFloat R; VFloat z] forced
  = Ok (R * force_factor hyp2f1 a0 alpha beta (radius R z))
  /\ call o M_zforce [VFloat R; VFloat z] forced
     = Ok (z * force_factor hyp2f1 a0 alpha beta (radius R z)).
Proof.
  intros Hr o; subst o; unfold force_factor.
  rewrite (pow_opp (radius R z)) by exact Hr.
  destruct i; split; run_call; apply f_equal; unfold radius, Rdiv; ring.
Qed.

Lemma general_forces_unbound (a0 alpha beta : float) (R z : float) :
  0 < radius R z ->
  let o := Instance TwoPowerSphericalPotential a0 alpha beta None in
  call o M_Rforce [VFloat R; VFloat z] []
  = Ok (R * force_factor hyp2f1 a0 alpha beta (radius R z))
  /\ call o M_zforce [VFloat R; VFloat z] []
     = Ok (z * force_factor hyp2f1 a0 alpha beta (radius R z)).
Proof.
  intros Hr o; subst o; unfold force_factor.
  rewrite (pow_opp (radius R z)) by exact Hr.
  split; run_call; apply f_equal; unfold radius, Rdiv; ring.
Qed.

(** C2 (amended): off the centre and for [alpha <> 3], the radial and the
    vertical force of the general evaluator are [R * f(r)] and [z * f(r)]
    with [f(r) = -a^(alpha-3)/(3-alpha) * 2F1(3-alpha, beta-alpha; 4-alpha;
    -r/a) * r^(-alpha)]: the hypergeometric argument is [-r/a].  This holds
    for the forced general path of any object of the class and for the
    plain query on an object without delegate. *)
Theorem general_force_is_factor_times_coordinates
        (a0 alpha beta : float) (i : option instance) (R z : float) :
  0 < radius R z -> alpha <> 3 ->
  let f := force_factor hyp2f1 a0 alpha beta (radius R z) in
  let o := Instance TwoPowerSphericalPotential a0 alpha beta i in
  let u := Instance TwoPowerSphericalPotential a0 alpha beta None in
  call o M_Rforce [VFloat R; VFloat z] forced = Ok (R * f)
  /\ call o M_zforce [VFloat R; VFloat z] forced = Ok (z * f)
  /\ call u M_Rforce [VFloat R; VFloat z] [] = Ok (R * f)
  /\ call u M_zforce [VFloat R; VFloat z] [] = Ok (z * f).
Proof.
  intros Hr _ f o u.
  destruct (general_forces a0 alpha beta i R z Hr) as [H1 H2].
  destruct (general_forces_unbound a0 alpha beta R z Hr) as [H3 H4].
  repeat split; assumption.
Qed.

Lemma Rpower_opp_2 (x : float) : 0 < x -> Rpower x (- (2)) = / (x * x).
Proof.
  intros Hx.
  rewrite Rpower_Ropp, <- (powerRZ_Rpower x 2) by exact Hx.
  simpl; f_equal; ring.
Qed.

Lemma Rpower_opp_1 (x : float) : 0 < x -> Rpower x (- (1)) = / x.
Proof. intros Hx; rewrite Rpower_Ropp, Rpower_1 by exact Hx; reflexivity. Qed.

(** With the hypergeometric function given on the diagonal by its binomial
    form, the force at [(R, z) = (2, 0)] for [a = 1], [alpha = 1],
    [beta = 4] is [-1/18]; the factor with argument [-a/r] gives [-2/9]. *)
Lemma force_differs_from_spec_factor :
  (forall a b z, z < 1 -> hyp2f1 a b b z = Rpower (1 - z) (- a)) ->
  call (new_TwoPowerSphericalPotential 1 1 4) M_Rforce
       [VFloat 2; VFloat 0] forced = Ok (- 1 / 18)
  /\ 2 * spec_force_factor hyp2f1 1 1 4 (radius 2 0) = - 2 / 9.
Proof.
  intros Hdiag.
  assert (radius 2 0 = 2) as Hr by (apply radius_axis; lra).
  split.
  - rewrite new_TwoPowerSphericalPotential_integer.
    destruct (general_forces 1 1 4
                (Some (TwoPowerIntegerSphericalPotential___init__ 1 1 4))
                2 0) as [-> _]; [lra |].
    apply f_equal; rewrite Hr; unfold force_factor.
    rewrite Hdiag by lra.
    replace (1 - 3) with (-2) by lra.
    replace (3 - 1) with 2 by lra.
    replace (1 - - (2) / 1) with 3 by lra.
    rewrite pow_IZR, pow_opp, pow_1, Rpower_opp_2 by lra.
    simpl; lra.
  - rewrite Hr; unfold spec_force_factor.
    rewrite Hdiag by lra.
    replace (1 - 3) with (-2) by lra.
    replace (3 - 1) with 2 by lra.
    replace (1 - - (1) / 2) with (3 / 2) by lra.
    rewrite pow_IZR, pow_opp, pow_1, Rpower_opp_2 by lra.
    simpl; lra.
Qed.

(** *** Second derivatives *)

(** C3 (not met by the code): the radial second derivative of the integer
    class has no test on [beta].  An object of the integer class built with
    [beta = 3] or [beta = 5], the exponents (1, 3) of the NFW delegate
    apart, binds no delegate, and [_R2deriv] at a point off the centre
    raises nothing: it returns the value of the Gamma/2F1 expression with
    the factor [Gamma (beta - 3)], the expression that the disabled
    [_R2deriv] of the general class guards with
    [raise ValueError('Not yet implemented')] for these two values of
    [beta]. *)
Theorem integer_R2deriv_returns_at_beta_3_or_5
        (a0 alpha beta : float) (R z : float) :
  beta = 3 \/ beta = 5 ->
  ~ (alpha = 1 /\ beta = 3) ->
  0 < radius R z ->
  let integer := TwoPowerIntegerSphericalPotential___init__ a0 alpha beta in
  let r := radius R z in
  integerSelf integer = None
  /\ call integer M_R2deriv [VFloat R; VFloat z] []
     = Ok (Gamma (beta - 3) / r ** 5
           * (((z ** 2 - 2 * R ** 2) * Gamma (3 - alpha)) / Gamma (beta - alpha)
              + a0 ** (-3 + beta) * (R ** 2 + z ** 2) ** (1 - beta / 2)
                * ((z ** 2 * (a0 * (alpha - beta) - r * (beta - 2))
                    + R ** 2 * (r * (beta - 2) * (beta - 1)
                                + 2 * a0 * (beta - alpha)))
                   * hyp2f1 (-2 + beta) (beta - alpha + 1) beta (- (a0 / r))
                   / Gamma beta
                   + (a0 * (R ** 2 * (2 + alpha * (-3 + beta))
                            - z ** 2 * (beta - 2))
                      + r * (- z ** 2 + R ** 2 * (beta - 1)) * (beta - 2))
                     * (-2 + beta)
                     * hyp2f1 (beta - 1) (beta - alpha + 1) beta (- (a0 / r))
                     / Gamma beta))).
Proof.
  intros Hbeta Hnfw _ integer r; subst integer r.
  assert (PyNum.eqb beta 4 = false) as H4
    by (apply eqb_neq; destruct Hbeta; lra).
  assert (PyNum.eqb alpha 1 && PyNum.eqb beta 3 = false) as H13.
  { destruct Hbeta as [-> | ->].
    - rewrite eqb_refl, andb_true_r; apply eqb_neq; intros ->; apply Hnfw.
      split; reflexivity.
    - rewrite (eqb_neq 5 3) by lra; apply andb_false_r. }
  unfold TwoPowerIntegerSphericalPotential___init__.
  rewrite H4, !andb_false_r, H13.
  split; reflexivity.
Qed.

(** *** Mutation of an exponent *)

(** C5: a general object built with [alpha = 1.5], [beta = 4] has no
    delegate.  Assigning [alpha = 1] raises nothing and returns the object
    that a construction with the exponents (1, 4) yields, the delegate
    bound anew; from then on the potential and both forces at a point off
    the centre are the values of the Hernquist class with the same scale
    radius. *)
Theorem alpha_assignment_rebinds_to_hernquist (a0 : float) (R z : float) :
  0 < radius R z ->
  let before := new_TwoPowerSphericalPotential a0 1.5 4 in
  let after := fst (setattr_alpha before 1) in
  integerSelf before = None
  /\ snd (setattr_alpha before 1) = None
  /\ after = new_TwoPowerSphericalPotential a0 1 4
  /\ forall m, In m [M_evaluate; M_Rforce; M_zforce] ->
       same_value
         (call after m [VFloat R; VFloat z] [])
         (call (HernquistPotential___init__ a0) m [VFloat R; VFloat z] []).
Proof.
  intros _ before after; subst after before.
  rewrite (new_TwoPowerSphericalPotential_fractional a0 1.5 4 1) by lra.
  assert (setattr_alpha (Instance TwoPowerSphericalPotential a0 1.5 4 None) 1
          = (new_TwoPowerSphericalPotential a0 1 4, None)) as ->.
  { rewrite new_TwoPowerSphericalPotential_integer.
    unfold setattr_alpha; simpl.
    rewrite !round_IZR, !eqb_refl; reflexivity. }
  repeat split.
  intros m Hm; simpl fst.
  rewrite new_TwoPowerSphericalPotential_integer, Integer_1_4_object.
  simpl in Hm.
  repeat (destruct Hm as [<- | Hm]; [eexists; split; reflexivity |]).
  contradiction.
Qed.

(** *** The general formulas at the Hernquist exponents *)

Section HernquistExponents.

(** What the comparison uses of the two special functions: the values of
    the gamma function at 1, 2 and 3, and the binomial form of the
    hypergeometric function on the diagonal [b = c]. *)
Hypothesis Gamma_1 : Gamma 1 = 1.
Hypothesis Gamma_2 : Gamma 2 = 1.
Hypothesis Gamma_3 : Gamma 3 = 2.
Hypothesis hyp2f1_diagonal :
  forall a b z, z < 1 -> hyp2f1 a b b z = Rpower (1 - z) (- a).

Variable a0 : float.
Hypothesis a0_pos : 0 < a0.

Variable i : option instance.
Variables R z : float.
Hypothesis off_centre : 0 < radius R z.

Let general : instance := Instance TwoPowerSphericalPotential a0 1 4 i.






End HernquistExponents.

Lemma same_value_sym (x y : result float) : same_value x y -> same_value y x.
Proof. intros (v & Hx & Hy); exists v; split; assumption. Qed.





End Properties.

(** ** The statements at concrete inputs *)

Lemma radius_pos (R z : float) : 0 < R -> 0 < radius R z.
Proof.
  intros HR; rewrite radius_sqr; apply sqrt_lt_R0; nra.
Qed.

Lemma Gamma_factorial_values :
  Gamma_factorial 1 = 1 /\ Gamma_factorial 2 = 1 /\ Gamma_factorial 3 = 2.
Proof.
  unfold Gamma_factorial; rewrite !Int_part_IZR; simpl; lra.
Qed.

Lemma hyp2f1_binomial_diagonal (a b z : float) :
  z < 1 -> hyp2f1_binomial a b b z = Rpower (1 - z) (- a).
Proof. reflexivity. Qed.

Lemma int_1_5 : 1.5 <> IZR (PyNum.int 1.5).
Proof.
  rewrite (int_unique 1.5 1) by (left; lra); lra.
Qed.


(** C2 (as stated, with the argument [-a/r]) fails: for [a = 1],
    [alpha = 1], [beta = 4] at [(R, z) = (2, 0)], where 2F1 is on its
    diagonal and has its binomial value, the radial force of the general
    evaluator is [-1/18] and [R] times the stated factor is [-2/9]. *)
Lemma spec_force_factor_counterexample :
  0 < radius 2 0
  /\ 1 <> 3
  /\ call Gamma_factorial hyp2f1_binomial
          (new_TwoPowerSphericalPotential 1 1 4) M_Rforce
          [VFloat 2; VFloat 0] forced
     <> Ok (2 * spec_force_factor hyp2f1_binomial 1 1 4 (radius 2 0)).
Proof.
  split; [apply radius_pos; lra |].
  split; [lra |].
  destruct (force_differs_from_spec_factor Gamma_factorial hyp2f1_binomial
              hyp2f1_binomial_diagonal) as [-> ->].
  intros [= H]; lra.
Qed.

Lemma general_force_is_factor_times_coordinates_witness :
  let hyp2f1 := hyp2f1_binomial in
  let f := force_factor hyp2f1 1 1.5 4 (radius 3 4) in
  let o := Instance TwoPowerSphericalPotential 1 1.5 4 None in
  0 < radius 3 4
  /\ 1.5 <> 3
  /\ call Gamma_factorial hyp2f1 o M_Rforce [VFloat 3; VFloat 4] forced
     = Ok (3 * f)
  /\ call Gamma_factorial hyp2f1 o M_zforce [VFloat 3; VFloat 4] forced
     = Ok (4 * f)
  /\ call Gamma_factorial hyp2f1 o M_Rforce [VFloat 3; VFloat 4] []
     = Ok (3 * f)
  /\ call Gamma_factorial hyp2f1 o M_zforce [VFloat 3; VFloat 4] []
     = Ok (4 * f).
Proof.
  intros hyp2f1 f o.
  assert (0 < radius 3 4) as Hr by (apply radius_pos; lra).
  assert (1.5 <> 3) as Halpha by lra.
  split; [exact Hr |].
  split; [exact Halpha |].
  exact (general_force_is_factor_times_coordinates
           Gamma_factorial hyp2f1_binomial 1 1.5 4 None 3 4 Hr Halpha).
Defined.

Lemma radius_1_0 : 0 < radius 1 0.
Proof. apply radius_pos; lra. Qed.

Lemma integer_R2deriv_returns_at_beta_3_or_5_witness :
  let Gamma := Gamma_factorial in
  let hyp2f1 := hyp2f1_binomial in
  let integer := TwoPowerIntegerSphericalPotential___init__ 1 2 5 in
  let r := radius 1 0 in
  (5 = 3 \/ 5 = 5)
  /\ ~ (2 = 1 /\ 5 = 3)
  /\ 0 < radius 1 0
  /\ integerSelf integer = None
  /\ call Gamma hyp2f1 integer M_R2deriv [VFloat 1; VFloat 0] []
     = Ok (Gamma (5 - 3) / r ** 5
           * (((0 ** 2 - 2 * 1 ** 2) * Gamma (3 - 2)) / Gamma (5 - 2)
              + 1 ** (-3 + 5) * (1 ** 2 + 0 ** 2) ** (1 - 5 / 2)
                * ((0 ** 2 * (1 * (2 - 5) - r * (5 - 2))
                    + 1 ** 2 * (r * (5 - 2) * (5 - 1) + 2 * 1 * (5 - 2)))
                   * hyp2f1 (-2 + 5) (5 - 2 + 1) 5 (- (1 / r))
                   / Gamma 5
                   + (1 * (1 ** 2 * (2 + 2 * (-3 + 5)) - 0 ** 2 * (5 - 2))
                      + r * (- 0 ** 2 + 1 ** 2 * (5 - 1)) * (5 - 2))
                     * (-2 + 5)
                     * hyp2f1 (5 - 1) (5 - 2 + 1) 5 (- (1 / r))
                     / Gamma 5))).
Proof.
  intros Gamma hyp2f1 integer r.
  assert (5 = 3 \/ 5 = 5) as Hbeta by (right; reflexivity).
  assert (~ (2 = 1 /\ 5 = 3)) as Hnfw by lra.
  split; [exact Hbeta |].
  split; [exact Hnfw |].
  split; [exact radius_1_0 |].
  exact (integer_R2deriv_returns_at_beta_3_or_5
           Gamma_factorial hyp2f1_binomial 1 2 5 1 0 Hbeta Hnfw radius_1_0).
Defined.

Lemma alpha_assignment_rebinds_to_hernquist_witness :
  let Gamma := Gamma_factorial in
  let hyp2f1 := hyp2f1_binomial in
  let before := new_TwoPowerSphericalPotential 5 1.5 4 in
  let after := fst (setattr_alpha before 1) in
  0 < radius 0.3 0.4
  /\ integerSelf before = None
  /\ snd (setattr_alpha before 1) = None
  /\ after = new_TwoPowerSphericalPotential 5 1 4
  /\ forall m, In m [M_evaluate; M_Rforce; M_zforce] ->
       same_value
         (call Gamma hyp2f1 after m [VFloat 0.3; VFloat 0.4] [])
         (call Gamma hyp2f1 (HernquistPotential___init__ 5) m
               [VFloat 0.3; VFloat 0.4] []).
Proof.
  intros Gamma hyp2f1 before after.
  assert (0 < radius 0.3 0.4) as Hr by (apply radius_pos; lra).
  split; [exact Hr |].
  exact (alpha_assignment_rebinds_to_hernquist
           Gamma_factorial hyp2f1_binomial 5 0.3 0.4 Hr).
Defined.

Lemma integer_exponent_assignment_rejects_fraction_witness :
  let self := TwoPowerIntegerSphericalPotential___init__ 1 1 3 in
  1.5 <> IZR (PyNum.int 1.5)
  /\ setattr_alpha self 1.5
     = (self, Some (ValueError "alpha must be an integer"))
  /\ setattr_beta self 1.5
     = (self, Some (ValueError "beta must be an integer")).
Proof.
  intros self.
  split; [exact int_1_5 |].
  subst self; rewrite Integer_1_3_object.
  exact (integer_exponent_assignment_rejects_fraction
           1 1 3 (Some (NFWPotential___init__ 1)) 1.5 int_1_5).
Defined.

Lemma forces_point_along_radius_witness :
  let Gamma := Gamma_factorial in
  let hyp2f1 := hyp2f1_binomial in
  let o := NFWPotential___init__ 1 in
  0 < radius 3 4
  /\ exists FR Fz F,
      call Gamma hyp2f1 o M_Rforce [VFloat 3; VFloat 4] [] = Ok FR
      /\ call Gamma hyp2f1 o M_zforce [VFloat 3; VFloat 4] [] = Ok Fz
      /\ 4 * FR = 3 * Fz
      /\ FR = 3 / radius 3 4 * F
      /\ Fz = 4 / radius 3 4 * F.
Proof.
  intros Gamma hyp2f1 o.
  assert (0 < radius 3 4) as Hr by (apply radius_pos; lra).
  split; [exact Hr |].
  exact (forces_point_along_radius
           Gamma_factorial hyp2f1_binomial (NFWPotential___init__ 1) 3 4 Hr).
Defined.

(** * Further properties *)

(** ** Assignment and construction *)

Lemma TwoPower_setattr_alpha (a0 alpha beta : float) (i : option instance)
      (v : float) :
  setattr_alpha (Instance TwoPowerSphericalPotential a0 alpha beta i) v
  = (new_TwoPowerSphericalPotential a0 v beta, None).
Proof. reflexivity. Qed.

Lemma TwoPower_setattr_beta (a0 alpha beta : float) (i : option instance)
      (v : float) :
  setattr_beta (Instance TwoPowerSphericalPotential a0 alpha beta i) v
  = (new_TwoPowerSphericalPotential a0 alpha v, None).
Proof. reflexivity. Qed.

Lemma new_TwoPowerSphericalPotential_shape (a0 alpha beta : float) :
  exists i, new_TwoPowerSphericalPotential a0 alpha beta
            = Instance TwoPowerSphericalPotential a0 alpha beta i.
Proof. eexists; reflexivity. Qed.

(** X1: on an object of the general class, whatever delegate it holds, an
    assignment to [alpha] or to [beta] raises nothing and leaves the very
    object that the constructor builds from the scale radius and the
    exponents now stored.  Hence two assignments give the object built from
    the final pair, in either order. *)
Theorem general_assignments_rebuild (a0 alpha beta : float)
        (i : option instance) (v w : float) :
  let o := Instance TwoPowerSphericalPotential a0 alpha beta i in
  setattr_alpha o v = (new_TwoPowerSphericalPotential a0 v beta, None)
  /\ setattr_beta o w = (new_TwoPowerSphericalPotential a0 alpha w, None)
  /\ setattr_beta (fst (setattr_alpha o v)) w
     = (new_TwoPowerSphericalPotential a0 v w, None)
  /\ setattr_alpha (fst (setattr_beta o w)) v
     = (new_TwoPowerSphericalPotential a0 v w, None).
Proof.
  intros o; subst o.
  rewrite TwoPower_setattr_alpha, TwoPower_setattr_beta; simpl fst.
  destruct (new_TwoPowerSphericalPotential_shape a0 v beta) as [j ->].
  destruct (new_TwoPowerSphericalPotential_shape a0 alpha w) as [k ->].
  repeat split; reflexivity.
Qed.

Lemma Dehnen_setattr_alpha (a0 alpha : float) (i : option instance)
      (v : float) :
  setattr_alpha (Instance DehnenSphericalPotential a0 alpha 4 i) v
  = (new_DehnenSphericalPotential a0 v, None).
Proof. reflexivity. Qed.

(** Integer exponents (2, 4): the delegate of the integer class is Jaffe. *)
Lemma Integer_2_4_object (a0 : float) :
  TwoPowerIntegerSphericalPotential___init__ a0 2 4
  = Instance TwoPowerIntegerSphericalPotential a0 2 4
      (Some (JaffePotential___init__ a0)).
Proof.
  unfold TwoPowerIntegerSphericalPotential___init__.
  rewrite (eqb_neq 2 1) by lra.
  rewrite !eqb_refl; reflexivity.
Qed.

(** The delegate that the integer class binds is one of four. *)
Lemma Integer_delegate_cases (a0 alpha beta : float) :
  let d :=
    integerSelf (TwoPowerIntegerSphericalPotential___init__ a0 alpha beta) in
  d = Some (HernquistPotential___init__ a0)
  \/ d = Some (JaffePotential___init__ a0)
  \/ d = Some (NFWPotential___init__ a0)
  \/ d = None.
Proof.
  unfold TwoPowerIntegerSphericalPotential___init__; simpl.
  destruct (PyNum.eqb alpha 1 && PyNum.eqb beta 4); [auto |].
  destruct (PyNum.eqb alpha 2 && PyNum.eqb beta 4); [auto |].
  destruct (PyNum.eqb alpha 1 && PyNum.eqb beta 3); auto.
Qed.

Lemma Integer_init_shape (a0 alpha beta : float) :
  TwoPowerIntegerSphericalPotential___init__ a0 alpha beta
  = Instance TwoPowerIntegerSphericalPotential a0 alpha beta
      (integerSelf (TwoPowerIntegerSphericalPotential___init__ a0 alpha beta)).
Proof. reflexivity. Qed.

Section FurtherProperties.

Variable Gamma : float -> float.
Variable hyp2f1 : float -> float -> float -> float -> float.

#[local] Abbreviation call := (call Gamma hyp2f1).

(** X2: on a Dehnen object, whatever delegate it holds, an assignment to
    [alpha] raises nothing and leaves the object that the constructor
    builds from the scale radius and the new [alpha]; after [alpha = 1] the
    potential and the forces are those of the Hernquist class, after
    [alpha = 2] those of the Jaffe class. *)
Theorem dehnen_alpha_assignment_rebuilds (a0 alpha : float)
        (i : option instance) (v : float) (R z : float) :
  let o := Instance DehnenSphericalPotential a0 alpha 4 i in
  setattr_alpha o v = (new_DehnenSphericalPotential a0 v, None)
  /\ forall m, In m [M_evaluate; M_Rforce; M_zforce] ->
       same_value (call (fst (setattr_alpha o 1)) m [VFloat R; VFloat z] [])
                  (call (HernquistPotential___init__ a0) m
                        [VFloat R; VFloat z] [])
       /\ same_value (call (fst (setattr_alpha o 2)) m [VFloat R; VFloat z] [])
                     (call (JaffePotential___init__ a0) m
                           [VFloat R; VFloat z] []).
Proof.
  intros o; subst o; split; [apply Dehnen_setattr_alpha |].
  intros m Hm; rewrite !Dehnen_setattr_alpha; simpl fst.
  rewrite !new_DehnenSphericalPotential_integer,
          Integer_1_4_object, Integer_2_4_object.
  simpl in Hm.
  repeat (destruct Hm as [<- | Hm];
          [split; eexists; split; reflexivity |]).
  contradiction.
Qed.

(** A second integer object in front of an integer object changes no
    answer. *)
Lemma Integer_wrapped (a0 alpha beta b0 alpha' beta' : float) (R z : float)
      (m : meth) :
  In m [M_evaluate; M_Rforce; M_zforce; M_R2deriv] ->
  call (Instance TwoPowerIntegerSphericalPotential b0 alpha' beta'
          (Some (TwoPowerIntegerSphericalPotential___init__ a0 alpha beta)))
       m [VFloat R; VFloat z] []
  = call (TwoPowerIntegerSphericalPotential___init__ a0 alpha beta)
         m [VFloat R; VFloat z] [].
Proof.
  intros Hm.
  rewrite Integer_init_shape.
  destruct (Integer_delegate_cases a0 alpha beta) as [-> | [-> | [-> | ->]]];
    simpl in Hm;
    repeat (destruct Hm as [<- | Hm]; [reflexivity |]); contradiction.
Qed.

(** X3: on an object of the integer class with integer exponents, the
    assignment of an integer to [alpha] or to [beta] raises nothing and
    stores it; the delegate it binds is a new object of the integer class
    (not an elementary one), and the potential, the forces and the radial
    second derivative are then answered as by an integer object constructed
    with the new exponents. *)
Theorem integer_assignment_answers_as_new
        (a0 : float) (n m k : Z) (i : option instance) (R z : float) :
  let o := Instance TwoPowerIntegerSphericalPotential a0 (IZR n) (IZR m) i in
  snd (setattr_alpha o (IZR k)) = None
  /\ snd (setattr_beta o (IZR k)) = None
  /\ fst (setattr_alpha o (IZR k))
     = Instance TwoPowerIntegerSphericalPotential a0 (IZR k) (IZR m)
         (Some (TwoPowerIntegerSphericalPotential___init__
                  a0 (IZR k) (IZR m)))
  /\ fst (setattr_beta o (IZR k))
     = Instance TwoPowerIntegerSphericalPotential a0 (IZR n) (IZR k)
         (Some (TwoPowerIntegerSphericalPotential___init__
                  a0 (IZR n) (IZR k)))
  /\ forall q, In q [M_evaluate; M_Rforce; M_zforce; M_R2deriv] ->
       call (fst (setattr_alpha o (IZR k))) q [VFloat R; VFloat z] []
       = call (TwoPowerIntegerSphericalPotential___init__ a0 (IZR k) (IZR m))
              q [VFloat R; VFloat z] []
       /\ call (fst (setattr_beta o (IZR k))) q [VFloat R; VFloat z] []
          = call (TwoPowerIntegerSphericalPotential___init__
                    a0 (IZR n) (IZR k))
                 q [VFloat R; VFloat z] [].
Proof.
  intros o; subst o.
  unfold setattr_alpha, setattr_beta; simpl klass.
  rewrite !int_IZR, !eqb_refl; simpl negb; cbv iota.
  unfold set__alpha, set__beta, set_integerSelf; simpl.
  rewrite !int_IZR, !eqb_refl; simpl.
  repeat split; try reflexivity; apply Integer_wrapped; assumption.
Qed.

(** ** Spherical symmetry *)

Lemma evaluate_of_radius (o : instance) :
  forall (R z R' z' : float) kw,
    plain_call kw -> radius R z = radius R' z' ->
    same_value (call o M_evaluate [VFloat R; VFloat z] kw)
               (call o M_evaluate [VFloat R'; VFloat z'] kw).
Proof.
  induction o as [k a0 alpha beta | k a0 alpha beta i IH] using instance_ind';
    intros R z R' z' kw Hkw Hr; unfold radius in Hr.
  - destruct Hkw as [-> | (p & t & ->)]; destruct k; run_call;
      try (destruct (PyNum.eqb beta 3)); run_call;
      rewrite Hr; eexists; split; reflexivity.
  - destruct Hkw as [-> | (p & t & ->)]; destruct k; run_call;
      first [ apply IH; [right; do 2 eexists; reflexivity | exact Hr]
            | rewrite Hr; eexists; split; reflexivity ].
Qed.

Lemma mass_of_radius (o : instance) (R z R' z' : float) :
  radius R z = radius R' z' ->
  same_value (call o M_mass [VFloat R; VFloat z] [])
             (call o M_mass [VFloat R'; VFloat z'] []).
Proof.
  intros Hr.
  destruct o as [k a0 alpha beta [i |]]; destruct k; run_call;
    rewrite Hr; eexists; split; reflexivity.
Qed.

(** X4: for every object (any class, any chain of delegates), the potential
    and the enclosed mass are returned and take the same value at two
    points with the same [r = sqrt(R^2 + z^2)]. *)
Theorem potential_and_mass_depend_on_radius
        (o : instance) (R z R' z' : float) :
  radius R z = radius R' z' ->
  same_value (call o M_evaluate [VFloat R; VFloat z] [])
             (call o M_evaluate [VFloat R'; VFloat z'] [])
  /\ same_value (call o M_mass [VFloat R; VFloat z] [])
                (call o M_mass [VFloat R'; VFloat z'] []).
Proof.
  intros Hr; split.
  - apply evaluate_of_radius; [left; reflexivity | exact Hr].
  - apply mass_of_radius; exact Hr.
Qed.

(** ** Powers of positive numbers *)

Lemma pow_div_pos (x y e : float) :
  0 < x -> 0 < y -> (x / y) ** e = x ** e / y ** e.
Proof.
  intros Hx Hy.
  assert (0 < x / y) by (apply Rdiv_lt_0_compat; assumption).
  rewrite !pow_pos by assumption.
  unfold Rdiv;
    rewrite <- Rpower_mult_distr by (try apply Rinv_0_lt_compat; assumption).
  f_equal.
  unfold Rpower; rewrite ln_Rinv by assumption.
  rewrite <- exp_Ropp; f_equal; ring.
Qed.

Lemma pow_minus_pos (x e d : float) :
  0 < x -> x ** (e - d) = x ** e / x ** d.
Proof.
  intros Hx; rewrite !pow_pos by assumption.
  unfold Rminus; rewrite Rpower_plus, Rpower_Ropp; reflexivity.
Qed.

Lemma pow_3 (x : float) : x ** 3 = x * x * x.
Proof. rewrite pow_IZR; simpl; ring. Qed.

Lemma pow_4 (x : float) : x ** 4 = x * x * x * x.
Proof. rewrite pow_IZR; simpl; ring. Qed.

Lemma pow_nonzero (x e : float) : 0 < x -> x ** e <> 0.
Proof.
  intros Hx; rewrite pow_pos by assumption.
  unfold Rpower; apply Rgt_not_eq, exp_pos.
Qed.

Lemma pow_gt_0 (x e : float) : 0 < x -> 0 < x ** e.
Proof.
  intros Hx; rewrite pow_pos by assumption.
  unfold Rpower; apply exp_pos.
Qed.

Lemma radius_sqr_eq (R z : float) : radius R z * radius R z = R * R + z * z.
Proof. rewrite radius_sqr; apply sqrt_sqrt; nra. Qed.

(** ** Force and enclosed mass *)

(** X5: for an object without delegate (the general, the Dehnen and the
    integer class where no delegate is bound, and the three elementary
    classes), with positive scale radius and off the centre, the force is
    the enclosed mass over [r^2], directed to the centre:
    [F_R = -M(r)/r^2 * R/r] and [F_z = -M(r)/r^2 * z/r], with [M] the value
    of [_mass] at the same point. *)
Theorem force_is_enclosed_mass_over_r2 (o : instance) (R z : float) :
  0 < a o -> 0 < radius R z ->
  integerSelf o = None ->
  exists M,
    call o M_mass [VFloat R; VFloat z] [] = Ok M
    /\ call o M_Rforce [VFloat R; VFloat z] []
       = Ok (- (M / radius R z ^ 2) * (R / radius R z))
    /\ call o M_zforce [VFloat R; VFloat z] []
       = Ok (- (M / radius R z ^ 2) * (z / radius R z)).
Proof.
  destruct o as [k a0 alpha beta i]; simpl; intros Ha Hr ->.
  pose proof (radius_sqr_eq R z) as Hrr.
  assert (0 < radius R z / a0) as Hx by (apply Rdiv_lt_0_compat; assumption).
  assert (a0 ** alpha <> 0) by (apply pow_nonzero; assumption).
  assert (radius R z ** alpha <> 0) by (apply pow_nonzero; assumption).
  destruct k; eexists; (split; [run_call; reflexivity |]);
    split; run_call; apply f_equal; fold (radius R z);
    try (replace (- alpha + beta) with (beta - alpha) by ring;
         rewrite (pow_div_pos (radius R z) a0), !(pow_minus_pos (radius R z)),
                 !(pow_minus_pos a0), !pow_3 by assumption;
         unfold Rdiv; set (k := / (3 - alpha));
         field; repeat split; lra).
  all: rewrite ?pow_2, ?pow_3.
  all: try (field; repeat split; lra).
  all: rewrite <- Hrr; field; repeat split; lra.
Qed.

(** ** The radius of [_mass] *)

(** X6: for every object and every [R >= 0], the enclosed mass with
    [z=None] (the argument [R] taken as the spherical radius), with [z]
    left out (its default is [0.]) and at [(R, 0.)] is the same number. *)
Theorem mass_of_spherical_radius (o : instance) (R : float) :
  0 <= R ->
  same_value (call o M_mass [VFloat R; VNone] [])
             (call o M_mass [VFloat R; VFloat 0] [])
  /\ same_value (call o M_mass [VFloat R] [("z", VNone)]%string)
                (call o M_mass [VFloat R; VFloat 0] [])
  /\ same_value (call o M_mass [VFloat R] [])
                (call o M_mass [VFloat R; VFloat 0] []).
Proof.
  intros HR.
  destruct o as [k a0 alpha beta [i |]]; destruct k;
    (split; [| split]); run_call;
    rewrite (radius_axis R HR); eexists; split; reflexivity.
Qed.

(** ** Second derivatives *)

Lemma pow_4_sqr (x : float) : x ** 4 = (x * x) * (x * x).
Proof. rewrite pow_IZR; simpl; ring. Qed.

Lemma radius_swap (R z : float) : radius z R = radius R z.
Proof. rewrite !radius_sqr; f_equal; ring. Qed.

Lemma Rabs_sqr (x : float) : Rabs x * Rabs x = x * x.
Proof. rewrite <- Rabs_mult; apply Rabs_pos_eq; nra. Qed.

Lemma radius_abs (R z : float) : radius (Rabs z) R = radius R z.
Proof. rewrite !radius_sqr, Rabs_sqr; f_equal; ring. Qed.

(** Replace the squares of the coordinate [z] by [r^2 - R^2], after the
    powers have been written as products. *)
Ltac in_radius R z :=
  let r := fresh "r" in
  let Hrr := fresh "Hrr" in
  let Hr := fresh "Hr" in
  pose proof (radius_sqr_eq R z) as Hrr;
  rewrite ?(radius_swap R z), ?(radius_abs R z);
  rewrite ?pow_4_sqr, ?pow_3, ?pow_2, ?pow_1, ?Rabs_sqr;
  rewrite <- ?Hrr;
  replace (z * z) with (radius R z * radius R z - R * R) by lra.

(** X7: on a Dehnen object with positive scale radius and [alpha <> 3], off
    the centre, the vertical second derivative equals the radial second
    derivative of the class's own formula ([_forceFloatEval=True]) with [R]
    and [z] exchanged. *)
Theorem dehnen_z2deriv_is_R2deriv_swapped
        (a0 alpha : float) (i : option instance) (R z : float) :
  0 < a0 -> alpha <> 3 -> 0 < radius R z ->
  let o := Instance DehnenSphericalPotential a0 alpha 4 i in
  same_value (call o M_z2deriv [VFloat R; VFloat z] [])
             (call o M_R2deriv [VFloat z; VFloat R] forced).
Proof.
  intros Ha Halpha Hr o; subst o.
  eexists; split; [destruct i; run_call; reflexivity |].
  destruct i; run_call; apply f_equal;
    fold (radius R z); fold (radius z R);
    rewrite (radius_swap R z), !pow_4, !pow_3, !pow_2;
    field; repeat split; lra.
Qed.

(** X8: on a Hernquist, a Jaffe and an NFW object, the vertical second
    derivative (inherited from the Dehnen class for the first two, and from
    the general class, which calls [_R2deriv(fabs(z), R)], for the third)
    is returned and equals the class's own radial second derivative with
    [R] and [z] exchanged. *)
Theorem elementary_z2deriv_is_R2deriv_swapped (a0 : float) (R z : float) :
  0 < a0 -> 0 < radius R z ->
  forall o, In o [HernquistPotential___init__ a0; JaffePotential___init__ a0;
                  NFWPotential___init__ a0] ->
    same_value (call o M_z2deriv [VFloat R; VFloat z] [])
               (call o M_R2deriv [VFloat z; VFloat R] []).
Proof.
  intros Ha Hr o Ho; simpl in Ho.
  assert (0 < radius R z + a0) by lra.
  destruct Ho as [<- | [<- | [<- | []]]];
    (eexists; split; [run_call; reflexivity |]);
    run_call; apply f_equal; fold (radius R z); fold (radius z R).
  - in_radius R z; field; repeat split; lra.
  - in_radius R z; field; repeat split; lra.
  - fold (radius (Rabs z) R).
    rewrite ?(radius_swap R z), ?(radius_abs R z).
    rewrite !pow_4_sqr, !pow_2, !Rabs_sqr.
    replace (z * z + R * R) with (R * R + z * z) by ring.
    reflexivity.
Qed.

Lemma pow_2_5 (x : float) : 0 < x -> x ** 2.5 = x * x * sqrt x.
Proof.
  intros Hx; rewrite pow_pos by assumption.
  replace 2.5 with (2 + / 2) by lra.
  rewrite Rpower_plus, Rpower_sqrt, <- (powerRZ_Rpower x 2) by assumption.
  simpl; ring.
Qed.

Lemma pow_opp_2_5 (x : float) : 0 < x -> x ** (-2.5) = / (x * x * sqrt x).
Proof.
  intros Hx.
  replace (-2.5) with (- (2.5)) by lra.
  rewrite pow_opp, pow_2_5 by assumption; reflexivity.
Qed.

Lemma radius_sqrt_sqr (R z : float) :
  sqrt (radius R z * radius R z) = radius R z.
Proof. apply sqrt_square, radius_nonneg. Qed.

(** ** Poisson's equation *)

(** X9: for a Hernquist, a Jaffe and an NFW object with positive scale
    radius, off the centre, the second derivatives, the forces and the
    density satisfy Poisson's equation: with the forces [F_R = R f] and
    [F_z = z f] (so that [-f] is [(1/R) dPhi/dR]),
    [_R2deriv + _z2deriv - f = 4 pi _dens]. *)
Theorem elementary_poisson_equation (a0 : float) (R z : float) :
  0 < a0 -> 0 < radius R z ->
  forall o, In o [HernquistPotential___init__ a0; JaffePotential___init__ a0;
                  NFWPotential___init__ a0] ->
  exists PhiRR Phizz f rho,
    call o M_R2deriv [VFloat R; VFloat z] [] = Ok PhiRR
    /\ call o M_z2deriv [VFloat R; VFloat z] [] = Ok Phizz
    /\ call o M_Rforce [VFloat R; VFloat z] [] = Ok (R * f)
    /\ call o M_zforce [VFloat R; VFloat z] [] = Ok (z * f)
    /\ TwoPowerSphericalPotential__dens o [VFloat R; VFloat z] [] = Ok rho
    /\ PhiRR + Phizz - f = 4 * PI * rho.
Proof.
  intros Ha Hr o Ho; simpl in Ho.
  assert (0 < radius R z + a0) by lra.
  assert (0 < radius R z * radius R z) by nra.
  pose proof PI_neq0 as Hpi.
  pose (r := sqrt (R ** 2 + z ** 2)).
  destruct Ho as [<- | [<- | [<- | []]]];
    do 2 eexists;
    [ exists (- 1 / a0 / r / (1 + r / a0) ** 2 / 2 / a0)
    | exists (- 1 / r ** 3 / (1 + a0 / r))
    | exists (1 / (R ** 2 + z ** 2) / (a0 + r)
              - ln (1 + r / a0) / r / (R ** 2 + z ** 2)) ];
    eexists;
    (split; [run_call; reflexivity |]);
    (split; [run_call; reflexivity |]);
    (split; [run_call; apply f_equal; unfold Rdiv; subst r; ring |]);
    (split; [run_call; apply f_equal; unfold Rdiv; subst r; ring |]);
    (split; [run_call; reflexivity |]);
    subst r; fold (radius R z); fold (radius (Rabs z) R);
    replace (4 - 1) with 3 by lra;
    replace (4 - 2) with 2 by lra;
    replace (3 - 1) with 2 by lra.
  - in_radius R z; field; repeat split; lra.
  - in_radius R z; field; repeat split; lra.
  - in_radius R z.
    replace (radius R z * radius R z - R * R + R * R)
      with (radius R z * radius R z) by ring.
    replace (R * R + (radius R z * radius R z - R * R))
      with (radius R z * radius R z) by ring.
    rewrite !pow_2_5, !radius_sqrt_sqr by assumption.
    field; repeat split; lra.
Qed.

(** X10: for a Hernquist, a Jaffe and an NFW object, and for a Dehnen
    object without delegate and with [alpha <> 3], with positive scale
    radius and off the centre, the three second derivatives are those of a
    function of [r] alone:
    [R z (_R2deriv - _z2deriv) = (R^2 - z^2) _Rzderiv]. *)
Theorem second_derivatives_of_a_radial_function
        (a0 alpha : float) (R z : float) :
  0 < a0 -> alpha <> 3 -> 0 < radius R z ->
  forall o, In o [HernquistPotential___init__ a0; JaffePotential___init__ a0;
                  NFWPotential___init__ a0;
                  Instance DehnenSphericalPotential a0 alpha 4 None] ->
  exists PhiRR Phizz PhiRz,
    call o M_R2deriv [VFloat R; VFloat z] [] = Ok PhiRR
    /\ call o M_z2deriv [VFloat R; VFloat z] [] = Ok Phizz
    /\ call o M_Rzderiv [VFloat R; VFloat z] [] = Ok PhiRz
    /\ R * z * (PhiRR - Phizz) = (R * R - z * z) * PhiRz.
Proof.
  intros Ha Halpha Hr o Ho; simpl in Ho.
  assert (0 < radius R z + a0) by lra.
  assert (0 < radius R z * radius R z) by nra.
  destruct Ho as [<- | [<- | [<- | [<- | []]]]];
    do 3 eexists;
    (split; [run_call; reflexivity |]);
    (split; [run_call; reflexivity |]);
    (split; [run_call; reflexivity |]);
    fold (radius R z); fold (radius (Rabs z) R).
  - rewrite (pow_IZR _ (-3)); simpl powerRZ.
    in_radius R z; field; repeat split; lra.
  - rewrite (pow_IZR _ (-4)), (pow_IZR _ (-2)); simpl powerRZ.
    in_radius R z; field; repeat split; lra.
  - rewrite (pow_IZR _ (-2)); simpl powerRZ.
    in_radius R z.
    replace (radius R z * radius R z - R * R + R * R)
      with (radius R z * radius R z) by ring.
    replace (R * R + (radius R z * radius R z - R * R))
      with (radius R z * radius R z) by ring.
    rewrite pow_opp_2_5, !pow_2_5, !radius_sqrt_sqr by assumption.
    field; repeat split; lra.
  - assert ((1 + a0 / radius R z) ** alpha <> 0)
      by (apply pow_nonzero, Rplus_lt_0_compat;
          [lra | apply Rdiv_lt_0_compat; assumption]).
    rewrite !pow_4_sqr, !pow_3, !pow_2.
    pose proof (radius_sqr_eq R z) as Hrr.
    replace (z * z) with (radius R z * radius R z - R * R) by lra.
    field; repeat split; lra.
Qed.

(** X11: with positive scale radius and off the centre, the Dehnen class's
    own radial second derivative ([_forceFloatEval=True]) at [alpha = 1] is
    the one of the Hernquist class and at [alpha = 2] the one of the Jaffe
    class. *)
Theorem dehnen_R2deriv_at_elementary_exponents (a0 : float) (R z : float) :
  0 < a0 -> 0 < radius R z ->
  same_value (call (new_DehnenSphericalPotential a0 1) M_R2deriv
                   [VFloat R; VFloat z] forced)
             (call (HernquistPotential___init__ a0) M_R2deriv
                   [VFloat R; VFloat z] [])
  /\ same_value (call (new_DehnenSphericalPotential a0 2) M_R2deriv
                      [VFloat R; VFloat z] forced)
                (call (JaffePotential___init__ a0) M_R2deriv
                      [VFloat R; VFloat z] []).
Proof.
  intros Ha Hr.
  assert (0 < radius R z + a0) by lra.
  rewrite !new_DehnenSphericalPotential_integer,
          Integer_1_4_object, Integer_2_4_object.
  split; eexists; (split; [| run_call; reflexivity]);
    run_call; apply f_equal; fold (radius R z);
    in_radius R z; field; repeat split; lra.
Qed.

(** X12: for integer exponents other than (1, 4), (2, 4) and (1, 3), the
    general object binds an integer object that binds nothing, and the
    plain queries of the potential and the forces return what the forced
    general formulas return. *)
Theorem plain_is_forced_without_elementary_match
        (a0 : float) (n m : Z) (R z : float) :
  (n, m) <> (1, 4)%Z -> (n, m) <> (2, 4)%Z -> (n, m) <> (1, 3)%Z ->
  let o := new_TwoPowerSphericalPotential a0 (IZR n) (IZR m) in
  integerSelf o
  = Some (Instance TwoPowerIntegerSphericalPotential a0 (IZR n) (IZR m) None)
  /\ forall q, In q [M_evaluate; M_Rforce; M_zforce] ->
       same_value (call o q [VFloat R; VFloat z] [])
                  (call o q [VFloat R; VFloat z] forced).
Proof.
  intros H14 H24 H13 o; subst o.
  assert (forall p q : Z,
             (n, m) <> (p, q) ->
             PyNum.eqb (IZR n) (IZR p) && PyNum.eqb (IZR m) (IZR q) = false)
    as Hne.
  { intros p q Hpq.
    destruct (PyNum.eqb (IZR n) (IZR p)) eqn:Hn; [| reflexivity].
    destruct (PyNum.eqb (IZR m) (IZR q)) eqn:Hm; [| reflexivity].
    apply eqb_eq, eq_IZR in Hn; apply eqb_eq, eq_IZR in Hm.
    subst; contradiction. }
  assert (TwoPowerIntegerSphericalPotential___init__ a0 (IZR n) (IZR m)
          = Instance TwoPowerIntegerSphericalPotential a0 (IZR n) (IZR m) None)
    as Hint.
  { unfold TwoPowerIntegerSphericalPotential___init__.
    rewrite (Hne 1 4)%Z, (Hne 2 4)%Z, (Hne 1 3)%Z by assumption.
    reflexivity. }
  rewrite new_TwoPowerSphericalPotential_integer, Hint.
  split; [reflexivity |].
  intros q Hq; simpl in Hq.
  destruct Hq as [<- | [<- | [<- | []]]]; run_call;
    try (destruct (PyNum.eqb (IZR m) 3));
    eexists; split; reflexivity.
Qed.

(** ** The Dehnen family and the general formulas *)

Lemma pow_as_exp (x e : float) : 0 < x -> x ** e = exp (e * ln x).
Proof. intros Hx; rewrite pow_pos by assumption; reflexivity. Qed.

Lemma nat_pow_as_exp (x : float) (n : nat) : 0 < x -> x ^ n = exp (INR n * ln x).
Proof. intros Hx; rewrite <- (Rpower_pow n x Hx); reflexivity. Qed.

Lemma ln_div_pos (x y : float) : 0 < x -> 0 < y -> ln (x / y) = ln x - ln y.
Proof.
  intros Hx Hy; unfold Rdiv.
  rewrite ln_mult, ln_Rinv by (try apply Rinv_0_lt_compat; assumption); ring.
Qed.

(** The powers of the force of the general class, for outer exponent 4 and
    the binomial value of 2F1, in terms of [(1 + a/r)^alpha]. *)
Lemma dehnen_powers (a0 alpha r : float) :
  0 < a0 -> 0 < r ->
  a0 ** (alpha - 3) * Rpower (1 - - r / a0) (- (3 - alpha)) * r ** (- alpha)
  = (1 + a0 / r) ** alpha / (r + a0) ^ 3.
Proof.
  intros Ha Hr.
  assert (0 < (r + a0) / a0) by (apply Rdiv_lt_0_compat; lra).
  assert (0 < (r + a0) / r) by (apply Rdiv_lt_0_compat; lra).
  replace (1 - - r / a0) with ((r + a0) / a0) by (field; lra).
  replace (1 + a0 / r) with ((r + a0) / r) by (field; lra).
  rewrite !pow_as_exp, (nat_pow_as_exp (r + a0) 3) by lra.
  unfold Rpower; rewrite !ln_div_pos by lra.
  unfold Rdiv; rewrite <- exp_Ropp, <- !exp_plus.
  f_equal; simpl INR; ring.
Qed.

(** The powers of the density, for outer exponent 4. *)
Lemma dehnen_density_powers (a0 alpha r : float) :
  0 < a0 -> 0 < r ->
  (a0 / r) ** alpha / (1 + r / a0) ** (4 - alpha)
  = a0 ^ 4 * (1 + a0 / r) ** alpha / (r + a0) ^ 4.
Proof.
  intros Ha Hr.
  assert (0 < a0 / r) by (apply Rdiv_lt_0_compat; lra).
  assert (0 < (r + a0) / a0) by (apply Rdiv_lt_0_compat; lra).
  assert (0 < (r + a0) / r) by (apply Rdiv_lt_0_compat; lra).
  replace (1 + r / a0) with ((r + a0) / a0) by (field; lra).
  replace (1 + a0 / r) with ((r + a0) / r) by (field; lra).
  rewrite !pow_as_exp, (nat_pow_as_exp (r + a0) 4), (nat_pow_as_exp a0 4) by lra.
  rewrite !ln_div_pos by lra.
  unfold Rdiv; rewrite <- !exp_Ropp, <- !exp_plus.
  f_equal; simpl INR; ring.
Qed.

Section Diagonal.

(** The binomial form of the hypergeometric function where its second and
    third parameter coincide. *)
Hypothesis hyp2f1_diagonal :
  forall a b z, z < 1 -> hyp2f1 a b b z = Rpower (1 - z) (- a).

Lemma dehnen_force_factor (a0 alpha r : float) :
  0 < a0 -> 0 < r ->
  force_factor hyp2f1 a0 alpha 4 r
  = - ((1 + a0 / r) ** alpha / (r + a0) ^ 3) / (3 - alpha).
Proof.
  intros Ha Hr.
  assert (0 < r / a0) by (apply Rdiv_lt_0_compat; assumption).
  rewrite <- dehnen_powers by assumption.
  unfold force_factor.
  rewrite hyp2f1_diagonal by lra.
  unfold Rdiv; ring.
Qed.

(** The forces of an object of one of the three non-elementary classes that
    has no delegate are the general ones. *)
Lemma unbound_forces (k : cls) (a0 alpha beta : float) (R z : float) :
  In k [TwoPowerSphericalPotential; DehnenSphericalPotential;
        TwoPowerIntegerSphericalPotential] ->
  0 < radius R z ->
  let o := Instance k a0 alpha beta None in
  call o M_Rforce [VFloat R; VFloat z] []
  = Ok (R * force_factor hyp2f1 a0 alpha beta (radius R z))
  /\ call o M_zforce [VFloat R; VFloat z] []
     = Ok (z * force_factor hyp2f1 a0 alpha beta (radius R z)).
Proof.
  intros Hk Hr o; subst o; unfold force_factor.
  rewrite (pow_opp (radius R z)) by exact Hr.
  simpl in Hk; destruct Hk as [<- | [<- | [<- | []]]];
    split; run_call; apply f_equal; unfold radius, Rdiv; ring.
Qed.

(** X13: for the exponents (2, 4), positive scale radius and a point off
    the centre, with the binomial value of 2F1 on its diagonal: the forces
    answered through the delegates are those of the Jaffe class and equal
    the forces of the general formulas ([_forceFloatEval=True]), and the
    enclosed mass of the Jaffe class equals the one of the general class. *)
Theorem jaffe_paths_agree (a0 : float) (R z : float) :
  0 < a0 -> 0 < radius R z ->
  let general := new_TwoPowerSphericalPotential a0 2 4 in
  let jaffe := JaffePotential___init__ a0 in
  (forall m, In m [M_Rforce; M_zforce] ->
     same_value (call general m [VFloat R; VFloat z] [])
                (call jaffe m [VFloat R; VFloat z] [])
     /\ same_value (call jaffe m [VFloat R; VFloat z] [])
                   (call general m [VFloat R; VFloat z] forced))
  /\ same_value (call jaffe M_mass [VFloat R; VFloat z] [])
                (call general M_mass [VFloat R; VFloat z] []).
Proof.
  intros Ha Hr general jaffe; subst general jaffe.
  assert (0 < radius R z + a0) by lra.
  assert (0 < radius R z / a0) by (apply Rdiv_lt_0_compat; assumption).
  rewrite new_TwoPowerSphericalPotential_integer, Integer_2_4_object.
  split.
  - intros m Hm; simpl in Hm.
    destruct (general_forces Gamma hyp2f1 a0 2 4
                (Some (Instance TwoPowerIntegerSphericalPotential a0 2 4
                         (Some (JaffePotential___init__ a0))))
                R z Hr) as [HR Hz].
    destruct Hm as [<- | [<- | []]];
      (split; [eexists; split; reflexivity |]);
      (eexists; split; [| first [exact HR | exact Hz]]);
      run_call; apply f_equal; fold (radius R z);
      rewrite dehnen_force_factor, pow_3, pow_2 by assumption;
      field; repeat split; lra.
  - eexists; split; [run_call; reflexivity |].
    run_call; apply f_equal.
    replace (- (2) + 4) with 2 by lra.
    replace (4 - 2) with 2 by lra.
    replace (3 - 2) with 1 by lra.
    rewrite hyp2f1_diagonal, Rpower_opp_1, pow_1 by lra.
    field; repeat split; lra.
Qed.

(** X14: with the binomial value of 2F1 on its diagonal, positive scale
    radius and a point off the centre, the enclosed mass of the general
    formula for outer exponent 4 (the Dehnen family) is
    [(r/(r+a))^(3-alpha) / (3-alpha)]; for [alpha < 3] it lies strictly
    between 0 and the total mass [1/(3-alpha)]. *)
Theorem dehnen_enclosed_mass (a0 alpha : float) (i : option instance)
        (R z : float) :
  0 < a0 -> 0 < radius R z ->
  let o := Instance DehnenSphericalPotential a0 alpha 4 i in
  let M := (radius R z / (radius R z + a0)) ** (3 - alpha) / (3 - alpha) in
  call o M_mass [VFloat R; VFloat z] [] = Ok M
  /\ (alpha < 3 -> 0 < M < 1 / (3 - alpha)).
Proof.
  intros Ha Hr o M; subst o M.
  assert (0 < radius R z + a0) by lra.
  assert (0 < radius R z / a0) by (apply Rdiv_lt_0_compat; assumption).
  assert (0 < (radius R z + a0) / a0) by (apply Rdiv_lt_0_compat; lra).
  assert (0 < radius R z / (radius R z + a0)) as Hq
      by (apply Rdiv_lt_0_compat; lra).
  split.
  - destruct i; run_call; apply f_equal;
      replace (- alpha + 4) with (4 - alpha) by ring;
      rewrite hyp2f1_diagonal by lra;
      replace (1 - - radius R z / a0) with ((radius R z + a0) / a0)
        by (field; lra);
      rewrite !pow_as_exp by assumption;
      unfold Rpower; rewrite !ln_div_pos by lra;
      unfold Rdiv; rewrite Rmult_assoc, (Rmult_comm (/ (3 - alpha))),
                   <- Rmult_assoc, <- exp_plus;
      do 2 f_equal; ring.
  - intros Halpha.
    assert (0 < 3 - alpha) as Hd by lra.
    assert ((radius R z / (radius R z + a0)) ** (3 - alpha) < 1) as Hlt.
    { rewrite pow_as_exp by assumption.
      rewrite <- exp_0; apply exp_increasing.
      assert (ln (radius R z / (radius R z + a0)) < 0).
      { rewrite <- ln_1; apply ln_increasing; [assumption |].
        apply (Rmult_lt_reg_r (radius R z + a0)); [assumption |].
        unfold Rdiv; rewrite Rmult_assoc, Rinv_l by lra; lra. }
      nra. }
    pose proof (pow_gt_0 (radius R z / (radius R z + a0)) (3 - alpha) Hq).
    split.
    + apply Rdiv_lt_0_compat; assumption.
    + apply (Rmult_lt_reg_r (3 - alpha)); [assumption |].
      unfold Rdiv; rewrite !Rmult_assoc, Rinv_l by lra; lra.
Qed.

(** X15: for a Dehnen object without delegate, with positive scale radius
    and [alpha <> 3], off the centre, and with the binomial value of 2F1 on
    its diagonal, the class's second derivatives, the forces of the general
    class and the density satisfy Poisson's equation:
    [_R2deriv + _z2deriv - f = 4 pi _dens], where [_Rforce = R f] and
    [_zforce = z f]. *)
Theorem dehnen_poisson_equation (a0 alpha : float) (R z : float) :
  0 < a0 -> alpha <> 3 -> 0 < radius R z ->
  let o := Instance DehnenSphericalPotential a0 alpha 4 None in
  exists PhiRR Phizz f rho,
    call o M_R2deriv [VFloat R; VFloat z] [] = Ok PhiRR
    /\ call o M_z2deriv [VFloat R; VFloat z] [] = Ok Phizz
    /\ call o M_Rforce [VFloat R; VFloat z] [] = Ok (R * f)
    /\ call o M_zforce [VFloat R; VFloat z] [] = Ok (z * f)
    /\ TwoPowerSphericalPotential__dens o [VFloat R; VFloat z] [] = Ok rho
    /\ PhiRR + Phizz - f = 4 * PI * rho.
Proof.
  intros Ha Halpha Hr o; subst o.
  assert (0 < radius R z + a0) by lra.
  pose proof PI_neq0 as Hpi.
  destruct (unbound_forces DehnenSphericalPotential a0 alpha 4 R z)
    as [HR Hz]; [simpl; auto | exact Hr |].
  do 2 eexists; exists (force_factor hyp2f1 a0 alpha 4 (radius R z)); eexists.
  (split; [run_call; reflexivity |]).
  (split; [run_call; reflexivity |]).
  (split; [exact HR |]).
  (split; [exact Hz |]).
  (split; [run_call; reflexivity |]).
  fold (radius R z).
  rewrite dehnen_force_factor, dehnen_density_powers by assumption.
  rewrite !pow_4_sqr, !pow_3, !pow_2.
  pose proof (radius_sqr_eq R z) as Hrr.
  replace (z * z) with (radius R z * radius R z - R * R) by lra.
  field; repeat split; lra.
Qed.

End Diagonal.

(** ** Signs and bounds of the elementary classes *)

Lemma ln_1_plus_lower (x : float) : 0 < x -> x / (1 + x) < ln (1 + x).
Proof.
  intros Hx.
  assert (0 < ln (1 + x)) as Hln
      by (rewrite <- ln_1; apply ln_increasing; lra).
  pose proof (exp_ineq1 (- ln (1 + x))) as H.
  rewrite exp_Ropp, exp_ln in H by lra.
  assert (1 + - ln (1 + x) < / (1 + x)) as H' by (apply H; lra).
  replace (x / (1 + x)) with (1 - / (1 + x)) by (field; lra).
  lra.
Qed.

Lemma ln_1_plus_pos (x : float) : 0 < x -> 0 < ln (1 + x).
Proof. intros Hx; rewrite <- ln_1; apply ln_increasing; lra. Qed.

(** X16: with positive scale radius and off the centre, the enclosed mass
    of the Hernquist class lies strictly between 0 and 1/2, the one of the
    Jaffe class strictly between 0 and 1, and the one of the NFW class is
    positive. *)
Theorem elementary_mass_bounds (a0 : float) (R z : float) :
  0 < a0 -> 0 < radius R z ->
  (exists M, call (HernquistPotential___init__ a0) M_mass
                  [VFloat R; VFloat z] [] = Ok M
             /\ 0 < M < 1 / 2)
  /\ (exists M, call (JaffePotential___init__ a0) M_mass
                     [VFloat R; VFloat z] [] = Ok M
                /\ 0 < M < 1)
  /\ (exists M, call (NFWPotential___init__ a0) M_mass
                     [VFloat R; VFloat z] [] = Ok M
                /\ 0 < M).
Proof.
  intros Ha Hr.
  assert (0 < radius R z / a0) as Hx by (apply Rdiv_lt_0_compat; assumption).
  set (x := radius R z / a0) in *.
  split; [| split]; eexists; (split; [run_call; reflexivity |]);
    fold (radius R z); fold x.
  - rewrite !pow_2.
    replace (x * x / 2 / ((1 + x) * (1 + x)))
      with (/ 2 * (x / (1 + x) * (x / (1 + x)))) by (field; lra).
    assert (0 < x / (1 + x) < 1) as [H0 H1].
    { split; [apply Rdiv_lt_0_compat; lra |].
      apply (Rmult_lt_reg_r (1 + x)); [lra |].
      unfold Rdiv; rewrite Rmult_assoc, Rinv_l by lra; lra. }
    nra.
  - split; [apply Rdiv_lt_0_compat; lra |].
    apply (Rmult_lt_reg_r (1 + x)); [lra |].
    unfold Rdiv; rewrite Rmult_assoc, Rinv_l by lra; lra.
  - pose proof (ln_1_plus_lower x Hx); lra.
Qed.

(** X17: with positive scale radius and off the centre, the potential of
    the Hernquist, the Jaffe and the NFW class is negative and their force
    is attractive: [_Rforce = R f] and [_zforce = z f] with [f < 0]. *)
Theorem elementary_potential_negative_force_attractive
        (a0 : float) (R z : float) :
  0 < a0 -> 0 < radius R z ->
  forall o, In o [HernquistPotential___init__ a0; JaffePotential___init__ a0;
                  NFWPotential___init__ a0] ->
  exists Phi f,
    call o M_evaluate [VFloat R; VFloat z] [] = Ok Phi
    /\ call o M_Rforce [VFloat R; VFloat z] [] = Ok (R * f)
    /\ call o M_zforce [VFloat R; VFloat z] [] = Ok (z * f)
    /\ Phi < 0
    /\ f < 0.
Proof.
  intros Ha Hr o Ho; simpl in Ho.
  assert (0 < radius R z / a0) as Hx by (apply Rdiv_lt_0_compat; assumption).
  assert (0 < a0 / radius R z) as Hy by (apply Rdiv_lt_0_compat; assumption).
  assert (0 < radius R z * radius R z) as Hrr by nra.
  pose proof (radius_sqr_eq R z) as Hsq.
  pose (r := sqrt (R ** 2 + z ** 2)).
  destruct Ho as [<- | [<- | [<- | []]]];
    eexists;
    [ exists (- 1 / a0 / r / (1 + r / a0) ** 2 / 2 / a0)
    | exists (- 1 / r ** 3 / (1 + a0 / r))
    | exists (1 / (R ** 2 + z ** 2) / (a0 + r)
              - ln (1 + r / a0) / r / (R ** 2 + z ** 2)) ];
    (split; [run_call; reflexivity |]);
    (split; [run_call; apply f_equal; unfold Rdiv; subst r; ring |]);
    (split; [run_call; apply f_equal; unfold Rdiv; subst r; ring |]);
    subst r; fold (radius R z).
  - split.
    + replace (-1 / (1 + radius R z / a0) / 2 / a0)
        with (- (/ ((1 + radius R z / a0) * 2 * a0))) by (field; lra).
      apply Ropp_lt_gt_0_contravar, Rinv_0_lt_compat; nra.
    + rewrite pow_2.
      replace (-1 / a0 / radius R z
               / ((1 + radius R z / a0) * (1 + radius R z / a0)) / 2 / a0)
        with (- (/ (a0 * radius R z
                    * ((1 + radius R z / a0) * (1 + radius R z / a0))
                    * 2 * a0))) by (field; lra).
      apply Ropp_lt_gt_0_contravar, Rinv_0_lt_compat.
      repeat apply Rmult_lt_0_compat; lra.
  - split.
    + pose proof (ln_1_plus_pos _ Hy).
      assert (0 < ln (1 + a0 / radius R z) / a0)
        by (apply Rdiv_lt_0_compat; assumption).
      lra.
    + rewrite pow_3.
      replace (-1 / (radius R z * radius R z * radius R z)
               / (1 + a0 / radius R z))
        with (- (/ (radius R z * radius R z * radius R z
                    * (1 + a0 / radius R z)))) by (field; lra).
      apply Ropp_lt_gt_0_contravar, Rinv_0_lt_compat.
      repeat apply Rmult_lt_0_compat; lra.
  - split.
    + pose proof (ln_1_plus_pos _ Hx).
      assert (0 < ln (1 + radius R z / a0) / radius R z)
        by (apply Rdiv_lt_0_compat; assumption).
      lra.
    + pose proof (ln_1_plus_lower _ Hx) as Hln.
      rewrite !pow_2, <- Hsq.
      replace (1 / (radius R z * radius R z) / (a0 + radius R z)
               - ln (1 + radius R z / a0) / radius R z
                 / (radius R z * radius R z))
        with ((radius R z / a0 / (1 + radius R z / a0)
               - ln (1 + radius R z / a0))
              * / (radius R z * radius R z * radius R z))
        by (field; repeat split; lra).
      assert (0 < / (radius R z * radius R z * radius R z))
        by (apply Rinv_0_lt_compat; repeat apply Rmult_lt_0_compat; lra).
      nra.
Qed.

(** ** Derivatives *)

Lemma derivable_pt_lim_eq (f : float -> float) (x l l' : float) :
  derivable_pt_lim f x l -> l = l' -> derivable_pt_lim f x l'.
Proof. intros H <-; exact H. Qed.

(** The derivative of an expression in one variable, rule by rule; the
    conditions of the rules (a divisor that is not zero, a positive
    argument of [ln] and [sqrt]) are left as goals. *)
Ltac derive :=
  lazymatch goal with
  | |- derivable_pt_lim (fun x => x) _ _ => apply derivable_pt_lim_id
  | |- derivable_pt_lim (fun _ => ?c) ?x0 _ =>
      apply (derivable_pt_lim_const c x0)
  | |- derivable_pt_lim (fun x => @?f x + @?g x) ?x0 _ =>
      eapply (derivable_pt_lim_plus f g x0); derive
  | |- derivable_pt_lim (fun x => @?f x - @?g x) ?x0 _ =>
      eapply (derivable_pt_lim_minus f g x0); derive
  | |- derivable_pt_lim (fun x => @?f x * @?g x) ?x0 _ =>
      eapply (derivable_pt_lim_mult f g x0); derive
  | |- derivable_pt_lim (fun x => @?f x / @?g x) ?x0 _ =>
      eapply (derivable_pt_lim_div f g x0); [derive | derive | cbv beta]
  | |- derivable_pt_lim (fun x => - @?f x) ?x0 _ =>
      eapply (derivable_pt_lim_opp f x0); derive
  | |- derivable_pt_lim (fun x => ln (@?f x)) ?x0 _ =>
      eapply (derivable_pt_lim_comp f ln x0);
      [derive | apply derivable_pt_lim_ln; cbv beta]
  | |- derivable_pt_lim (fun x => sqrt (@?f x)) ?x0 _ =>
      eapply (derivable_pt_lim_comp f sqrt x0);
      [derive | apply derivable_pt_lim_sqrt; cbv beta]
  end.

Lemma radius_derivative (R z : float) :
  0 < radius R z ->
  derivable_pt_lim (fun x => radius x z) R (R / radius R z).
Proof.
  intros Hr.
  pose proof (radius_sqr_eq R z) as Hrr.
  assert (0 < R * R + z * z) as Hpos by nra.
  apply (derivable_pt_lim_ext (fun x => sqrt (x * x + z * z)));
    [intros x; symmetry; apply radius_sqr |].
  eapply derivable_pt_lim_eq; [derive; exact Hpos |].
  cbv beta; rewrite <- radius_sqr; field; lra.
Qed.

(** A function of the radius, differentiated along [R] and along [z]. *)
Lemma radial_derivatives (phi : float -> float) (dphi : float) (R z : float) :
  0 < radius R z ->
  derivable_pt_lim phi (radius R z) dphi ->
  derivable_pt_lim (fun x => phi (radius x z)) R (dphi * (R / radius R z))
  /\ derivable_pt_lim (fun y => phi (radius R y)) z (dphi * (z / radius R z)).
Proof.
  intros Hr Hphi; split.
  - apply (derivable_pt_lim_comp (fun x => radius x z) phi);
      [apply radius_derivative; exact Hr | exact Hphi].
  - apply (derivable_pt_lim_ext (fun y => phi (radius y R)));
      [intros y; rewrite radius_swap; reflexivity |].
    rewrite <- (radius_swap R z) in *.
    apply (derivable_pt_lim_comp (fun y => radius y R) phi);
      [apply radius_derivative; exact Hr | exact Hphi].
Qed.

Lemma hernquist_profile_derivative (a0 r : float) :
  0 < a0 -> 0 < r ->
  derivable_pt_lim (fun r => -1 / (1 + r / a0) / 2 / a0) r
                   (1 / a0 / (1 + r / a0) ** 2 / 2 / a0).
Proof.
  intros Ha Hr.
  assert (0 < r / a0) by (apply Rdiv_lt_0_compat; assumption).
  eapply derivable_pt_lim_eq; [derive; lra |].
  unfold Rsqr; rewrite pow_2; field; repeat split; lra.
Qed.

Lemma jaffe_profile_derivative (a0 r : float) :
  0 < a0 -> 0 < r ->
  derivable_pt_lim (fun r => - ln (1 + a0 / r) / a0) r
                   (1 / r ** 2 / (1 + a0 / r)).
Proof.
  intros Ha Hr.
  assert (0 < a0 / r) by (apply Rdiv_lt_0_compat; assumption).
  eapply derivable_pt_lim_eq; [derive; lra |].
  unfold Rsqr; rewrite pow_2; field; repeat split; lra.
Qed.

Lemma nfw_profile_derivative (a0 r : float) :
  0 < a0 -> 0 < r ->
  derivable_pt_lim (fun r => - ln (1 + r / a0) / r) r
                   (ln (1 + r / a0) / (r * r) - 1 / r / (a0 + r)).
Proof.
  intros Ha Hr.
  assert (0 < r / a0) by (apply Rdiv_lt_0_compat; assumption).
  eapply derivable_pt_lim_eq; [derive; lra |].
  unfold Rsqr; field; repeat split; lra.
Qed.

(** X18: for a Hernquist, a Jaffe and an NFW object with positive scale
    radius, at every point off the centre, the force is minus the gradient
    of the potential: the potential is differentiable in [R] and in [z],
    with derivatives [-_Rforce] and [-_zforce]. *)
Theorem elementary_force_is_minus_gradient (a0 : float) (R z : float) :
  0 < a0 -> 0 < radius R z ->
  forall o, In o [HernquistPotential___init__ a0; JaffePotential___init__ a0;
                  NFWPotential___init__ a0] ->
  exists (Phi : float -> float -> float) (FR Fz : float),
    (forall x y, call o M_evaluate [VFloat x; VFloat y] [] = Ok (Phi x y))
    /\ call o M_Rforce [VFloat R; VFloat z] [] = Ok FR
    /\ call o M_zforce [VFloat R; VFloat z] [] = Ok Fz
    /\ derivable_pt_lim (fun x => Phi x z) R (- FR)
    /\ derivable_pt_lim (fun y => Phi R y) z (- Fz).
Proof.
  intros Ha Hr o Ho; simpl in Ho.
  pose proof (radius_sqr_eq R z) as Hrr.
  assert (0 < radius R z + a0) by lra.
  destruct Ho as [<- | [<- | [<- | []]]].
  - exists (fun x y => -1 / (1 + radius x y / a0) / 2 / a0).
    do 2 eexists.
    split; [intros x y; run_call; reflexivity |].
    split; [run_call; reflexivity |].
    split; [run_call; reflexivity |].
    destruct (radial_derivatives _ _ R z Hr
                (hernquist_profile_derivative a0 (radius R z) Ha Hr))
      as [HR Hz].
    split; (eapply derivable_pt_lim_eq; [first [exact HR | exact Hz] |]);
      fold (radius R z); unfold Rdiv; ring.
  - exists (fun x y => - ln (1 + a0 / radius x y) / a0).
    do 2 eexists.
    split; [intros x y; run_call; reflexivity |].
    split; [run_call; reflexivity |].
    split; [run_call; reflexivity |].
    destruct (radial_derivatives _ _ R z Hr
                (jaffe_profile_derivative a0 (radius R z) Ha Hr))
      as [HR Hz].
    split; (eapply derivable_pt_lim_eq; [first [exact HR | exact Hz] |]);
      fold (radius R z); rewrite pow_2, pow_3; field; repeat split; lra.
  - exists (fun x y => - ln (1 + radius x y / a0) / radius x y).
    do 2 eexists.
    split; [intros x y; run_call; reflexivity |].
    split; [run_call; reflexivity |].
    split; [run_call; reflexivity |].
    destruct (radial_derivatives _ _ R z Hr
                (nfw_profile_derivative a0 (radius R z) Ha Hr))
      as [HR Hz].
    split; (eapply derivable_pt_lim_eq; [first [exact HR | exact Hz] |]);
      fold (radius R z); rewrite !pow_2, <- Hrr; field; repeat split; lra.
Qed.

(** X19: for a Hernquist, a Jaffe and an NFW object with positive scale
    radius, the enclosed mass as a function of the spherical radius
    ([_mass(r, None)]) is differentiable at every [r > 0], with derivative
    [4 pi r^2] times the density at that radius. *)
Theorem elementary_mass_derivative_is_shell_density (a0 r : float) :
  0 < a0 -> 0 < r ->
  forall o, In o [HernquistPotential___init__ a0; JaffePotential___init__ a0;
                  NFWPotential___init__ a0] ->
  exists (M : float -> float) (rho : float),
    (forall x, call o M_mass [VFloat x; VNone] [] = Ok (M x))
    /\ TwoPowerSphericalPotential__dens o [VFloat r; VFloat 0] [] = Ok rho
    /\ derivable_pt_lim M r (4 * PI * (r * r) * rho).
Proof.
  intros Ha Hr o Ho; simpl in Ho.
  assert (0 < r / a0) by (apply Rdiv_lt_0_compat; assumption).
  assert (0 < a0 / r) by (apply Rdiv_lt_0_compat; assumption).
  pose proof PI_neq0 as Hpi.
  assert (radius r 0 = r) as Hax by (apply radius_axis; lra).
  destruct Ho as [<- | [<- | [<- | []]]].
  - exists (fun x => (x / a0) ** 2 / 2 / (1 + x / a0) ** 2); eexists.
    split; [intros x; run_call; reflexivity |].
    split; [run_call; reflexivity |].
    fold (radius r 0); rewrite Hax.
    apply (derivable_pt_lim_ext
             (fun x => (x / a0) * (x / a0) / 2 / ((1 + x / a0) * (1 + x / a0))));
      [intros x; rewrite !pow_2; reflexivity |].
    eapply derivable_pt_lim_eq; [derive; nra |].
    replace (4 - 1) with 3 by lra.
    unfold Rsqr; rewrite pow_1, !pow_3; field; repeat split; lra.
  - exists (fun x => x / a0 / (1 + x / a0)); eexists.
    split; [intros x; run_call; reflexivity |].
    split; [run_call; reflexivity |].
    fold (radius r 0); rewrite Hax.
    eapply derivable_pt_lim_eq; [derive; nra |].
    replace (4 - 2) with 2 by lra.
    unfold Rsqr; rewrite !pow_2, pow_3; field; repeat split; lra.
  - exists (fun x => ln (1 + x / a0) - x / a0 / (1 + x / a0)); eexists.
    split; [intros x; run_call; reflexivity |].
    split; [run_call; reflexivity |].
    fold (radius r 0); rewrite Hax.
    eapply derivable_pt_lim_eq; [derive; nra |].
    replace (3 - 1) with 2 by lra.
    unfold Rsqr; rewrite pow_1, pow_2, pow_3; field; repeat split; lra.
Qed.

(** The second derivatives as derivatives of the forces. *)

Ltac products := intros; rewrite ?pow_4_sqr, ?pow_3, ?pow_2, ?pow_1; reflexivity.

(** The derivative found by the rules equals the stated one: the radius
    is folded, powers are written as products and the square of the
    coordinate [v] (one of [R], [z]) is replaced by [r^2] minus the square
    of the other one. *)
Ltac radius_form R z v :=
  let Hrr := fresh "Hrr" in
  pose proof (radius_sqr_eq R z) as Hrr;
  cbv beta; unfold Rsqr;
  rewrite <- ?radius_sqr;
  rewrite ?pow_4_sqr, ?pow_3, ?pow_2, ?pow_1, ?Rabs_sqr;
  rewrite ?(Rplus_comm (z * z) (R * R));
  rewrite <- ?Hrr;
  rewrite ?pow_opp_2_5, ?pow_2_5, ?radius_sqrt_sqr by nra;
  first [ constr_eq v z;
          replace (z * z) with (radius R z * radius R z - R * R) by lra
        | replace (R * R) with (radius R z * radius R z - z * z) by lra ].

Ltac by_derivative g R z v :=
  apply (derivable_pt_lim_ext g); [products |];
  eapply derivable_pt_lim_eq; [derive; try lra; try nra |];
  radius_form R z v;
  field; repeat split; lra.

Ltac second_derivative_setup :=
  do 3 eexists;
  (split; [intros x y; run_call; reflexivity |]);
  (split; [intros x y; run_call; reflexivity |]);
  (split; [run_call; reflexivity |]);
  (split; [run_call; reflexivity |]);
  (split; [run_call; reflexivity |]).

Lemma hernquist_force_derivatives (a0 : float) (R z : float) :
  0 < a0 -> 0 < radius R z ->
  forces_differentiate_to_second_derivatives_at
    Gamma hyp2f1 (HernquistPotential___init__ a0) R z.
Proof.
  intros Ha Hr.
  assert (0 < radius R z + a0) by lra.
  assert (0 < R * R + z * z) as Hpos
      by (rewrite <- radius_sqr_eq; nra).
  assert (0 < sqrt (R * R + z * z)) as Hs by (rewrite <- radius_sqr; exact Hr).
  assert (0 < sqrt (R * R + z * z) / a0) by (apply Rdiv_lt_0_compat; assumption).
  exists (fun x y => - x / a0 / sqrt (x ** 2 + y ** 2)
                     / (1 + sqrt (x ** 2 + y ** 2) / a0) ** 2 / 2 / a0).
  exists (fun x y => - y / a0 / sqrt (x ** 2 + y ** 2)
                     / (1 + sqrt (x ** 2 + y ** 2) / a0) ** 2 / 2 / a0).
  second_derivative_setup.
  fold (radius R z); rewrite (pow_IZR _ (-3)); simpl powerRZ.
  split; [| split; [| split]].
  - by_derivative
      (fun x => - x / a0 / sqrt (x * x + z * z)
                / ((1 + sqrt (x * x + z * z) / a0)
                   * (1 + sqrt (x * x + z * z) / a0)) / 2 / a0) R z z.
  - by_derivative
      (fun y => - y / a0 / sqrt (R * R + y * y)
                / ((1 + sqrt (R * R + y * y) / a0)
                   * (1 + sqrt (R * R + y * y) / a0)) / 2 / a0) R z R.
  - by_derivative
      (fun y => - R / a0 / sqrt (R * R + y * y)
                / ((1 + sqrt (R * R + y * y) / a0)
                   * (1 + sqrt (R * R + y * y) / a0)) / 2 / a0) R z z.
  - by_derivative
      (fun x => - z / a0 / sqrt (x * x + z * z)
                / ((1 + sqrt (x * x + z * z) / a0)
                   * (1 + sqrt (x * x + z * z) / a0)) / 2 / a0) R z z.
Qed.

Lemma jaffe_force_derivatives (a0 : float) (R z : float) :
  0 < a0 -> 0 < radius R z ->
  forces_differentiate_to_second_derivatives_at
    Gamma hyp2f1 (JaffePotential___init__ a0) R z.
Proof.
  intros Ha Hr.
  assert (0 < radius R z + a0) by lra.
  assert (0 < R * R + z * z) as Hpos
      by (rewrite <- radius_sqr_eq; nra).
  assert (0 < sqrt (R * R + z * z)) as Hs by (rewrite <- radius_sqr; exact Hr).
  assert (0 < a0 / sqrt (R * R + z * z)) by (apply Rdiv_lt_0_compat; assumption).
  assert (0 < sqrt (R * R + z * z) * sqrt (R * R + z * z) * sqrt (R * R + z * z))
    by (repeat apply Rmult_lt_0_compat; assumption).
  exists (fun x y => - x / sqrt (x ** 2 + y ** 2) ** 3
                     / (1 + a0 / sqrt (x ** 2 + y ** 2))).
  exists (fun x y => - y / sqrt (x ** 2 + y ** 2) ** 3
                     / (1 + a0 / sqrt (x ** 2 + y ** 2))).
  second_derivative_setup.
  fold (radius R z);
    rewrite (pow_IZR _ (-4)), (pow_IZR _ (-2)); simpl powerRZ.
  split; [| split; [| split]].
  - by_derivative
      (fun x => - x / (sqrt (x * x + z * z) * sqrt (x * x + z * z)
                       * sqrt (x * x + z * z))
                / (1 + a0 / sqrt (x * x + z * z))) R z z.
  - by_derivative
      (fun y => - y / (sqrt (R * R + y * y) * sqrt (R * R + y * y)
                       * sqrt (R * R + y * y))
                / (1 + a0 / sqrt (R * R + y * y))) R z R.
  - by_derivative
      (fun y => - R / (sqrt (R * R + y * y) * sqrt (R * R + y * y)
                       * sqrt (R * R + y * y))
                / (1 + a0 / sqrt (R * R + y * y))) R z z.
  - by_derivative
      (fun x => - z / (sqrt (x * x + z * z) * sqrt (x * x + z * z)
                       * sqrt (x * x + z * z))
                / (1 + a0 / sqrt (x * x + z * z))) R z z.
Qed.

Lemma nfw_force_derivatives (a0 : float) (R z : float) :
  0 < a0 -> 0 < radius R z ->
  forces_differentiate_to_second_derivatives_at
    Gamma hyp2f1 (NFWPotential___init__ a0) R z.
Proof.
  intros Ha Hr.
  assert (0 < radius R z + a0) by lra.
  assert (0 < radius R z * radius R z) by nra.
  assert (0 < R * R + z * z) as Hpos
      by (rewrite <- radius_sqr_eq; nra).
  assert (0 < sqrt (R * R + z * z)) as Hs by (rewrite <- radius_sqr; exact Hr).
  assert (0 < sqrt (R * R + z * z) / a0) by (apply Rdiv_lt_0_compat; assumption).
  exists (fun x y =>
            x * (1 / (x ** 2 + y ** 2) / (a0 + sqrt (x ** 2 + y ** 2))
                 - ln (1 + sqrt (x ** 2 + y ** 2) / a0)
                   / sqrt (x ** 2 + y ** 2) / (x ** 2 + y ** 2))).
  exists (fun x y =>
            y * (1 / (x ** 2 + y ** 2) / (a0 + sqrt (x ** 2 + y ** 2))
                 - ln (1 + sqrt (x ** 2 + y ** 2) / a0)
                   / sqrt (x ** 2 + y ** 2) / (x ** 2 + y ** 2))).
  second_derivative_setup.
  fold (radius R z); rewrite (pow_IZR _ (-2)); simpl powerRZ.
  split; [| split; [| split]].
  - by_derivative
      (fun x =>
         x * (1 / (x * x + z * z) / (a0 + sqrt (x * x + z * z))
              - ln (1 + sqrt (x * x + z * z) / a0)
                / sqrt (x * x + z * z) / (x * x + z * z))) R z z.
  - by_derivative
      (fun y =>
         y * (1 / (R * R + y * y) / (a0 + sqrt (R * R + y * y))
              - ln (1 + sqrt (R * R + y * y) / a0)
                / sqrt (R * R + y * y) / (R * R + y * y))) R z R.
  - by_derivative
      (fun y =>
         R * (1 / (R * R + y * y) / (a0 + sqrt (R * R + y * y))
              - ln (1 + sqrt (R * R + y * y) / a0)
                / sqrt (R * R + y * y) / (R * R + y * y))) R z z.
  - by_derivative
      (fun x =>
         z * (1 / (x * x + z * z) / (a0 + sqrt (x * x + z * z))
              - ln (1 + sqrt (x * x + z * z) / a0)
                / sqrt (x * x + z * z) / (x * x + z * z))) R z z.
Qed.

(** X20: for a Hernquist, a Jaffe and an NFW object with positive scale
    radius, at every point off the centre, the second derivatives are minus
    the derivatives of the forces: [_Rforce] is differentiable in [R] with
    derivative [-_R2deriv] and in [z] with derivative [-_Rzderiv], and
    [_zforce] is differentiable in [z] with derivative [-_z2deriv] and in
    [R] with derivative [-_Rzderiv]. *)
Theorem elementary_second_derivatives_are_force_derivatives
        (a0 : float) (R z : float) :
  0 < a0 -> 0 < radius R z ->
  forall o, In o [HernquistPotential___init__ a0; JaffePotential___init__ a0;
                  NFWPotential___init__ a0] ->
    forces_differentiate_to_second_derivatives_at Gamma hyp2f1 o R z.
Proof.
  intros Ha Hr o Ho; simpl in Ho.
  destruct Ho as [<- | [<- | [<- | []]]].
  - apply hernquist_force_derivatives; assumption.
  - apply jaffe_force_derivatives; assumption.
  - apply nfw_force_derivatives; assumption.
Qed.

(** ** The keyword [_forceFloatEval] *)

(** X21: the general formulas can be forced on objects of the general and
    of the Dehnen class only.  On an object of the integer class or of an
    elementary class, whatever its delegate, the potential and the forces
    called with [_forceFloatEval=True] raise [TypeError], and so does the
    enclosed mass on every object; on an object of the general or the
    Dehnen class the potential and the forces called with the keyword
    return a number, whatever the delegate. *)
Theorem forced_evaluation_by_class
        (k : cls) (a0 alpha beta : float) (i : option instance) (R z : float) :
  let o := Instance k a0 alpha beta i in
  call o M_mass [VFloat R; VFloat z] forced
  = Raise (TypeError_unexpected_keyword "_mass" "_forceFloatEval")
  /\ forall m, In m [M_evaluate; M_Rforce; M_zforce] ->
       if cls_eqb k TwoPowerSphericalPotential
          || cls_eqb k DehnenSphericalPotential
       then exists v, call o m [VFloat R; VFloat z] forced = Ok v
       else call o m [VFloat R; VFloat z] forced
            = Raise (TypeError_unexpected_keyword (meth_name m)
                       "_forceFloatEval").
Proof.
  intros o; subst o; split.
  - destruct k, i; reflexivity.
  - intros m Hm; simpl in Hm.
    destruct Hm as [<- | [<- | [<- | []]]]; destruct k, i; simpl orb; cbv iota;
      try reflexivity; run_call;
      try (destruct (PyNum.eqb beta 3)); eexists; reflexivity.
Qed.

(** ** The chain of delegates *)

(** X22: in a constructed general object, every delegate stores the scale
    radius and the exponents of the object: a delegate, when there is one,
    is of the integer class, and its own delegate, when there is one, is an
    object of an elementary class that has no delegate. *)
Theorem delegates_store_the_same_profile (a0 alpha beta : float) :
  let o := new_TwoPowerSphericalPotential a0 alpha beta in
  klass o = TwoPowerSphericalPotential
  /\ a o = a0 /\ _alpha o = alpha /\ _beta o = beta
  /\ forall d, integerSelf o = Some d ->
       klass d = TwoPowerIntegerSphericalPotential
       /\ a d = a0 /\ _alpha d = alpha /\ _beta d = beta
       /\ forall e, integerSelf d = Some e ->
            In (klass e) [HernquistPotential; JaffePotential; NFWPotential]
            /\ a e = a0 /\ _alpha e = alpha /\ _beta e = beta
            /\ integerSelf e = None.
Proof.
  intros o; subst o.
  unfold new_TwoPowerSphericalPotential, TwoPowerSphericalPotential___init__.
  simpl.
  repeat (split; [reflexivity |]).
  intros d.
  destruct (PyNum.eqb alpha (IZR (PyNum.round alpha))) eqn:Ha;
    [| discriminate].
  destruct (PyNum.eqb beta (IZR (PyNum.round beta))) eqn:Hb;
    [| discriminate].
  apply eqb_eq in Ha; apply eqb_eq in Hb.
  rewrite <- Ha, <- Hb.
  intros [= <-].
  unfold TwoPowerIntegerSphericalPotential___init__; simpl.
  repeat (split; [reflexivity |]).
  intros e.
  destruct (PyNum.eqb alpha 1) eqn:H1; destruct (PyNum.eqb beta 4) eqn:H4;
    destruct (PyNum.eqb alpha 2) eqn:H2; destruct (PyNum.eqb beta 3) eqn:H3;
    simpl; try discriminate; intros [= <-];
    repeat match goal with
           | H : PyNum.eqb _ _ = true |- _ => apply eqb_eq in H
           end;
    subst; simpl; auto 10.
Qed.

(** ** Growth of the enclosed mass *)

Lemma ratio_increasing (x y : float) :
  0 <= x -> x < y -> x / (1 + x) < y / (1 + y).
Proof.
  intros Hx Hxy.
  apply (Rmult_lt_reg_r ((1 + x) * (1 + y))); [nra |].
  replace (x / (1 + x) * ((1 + x) * (1 + y))) with (x * (1 + y))
    by (field; lra).
  replace (y / (1 + y) * ((1 + x) * (1 + y))) with (y * (1 + x))
    by (field; lra).
  nra.
Qed.

(** X23: for a Hernquist, a Jaffe and an NFW object with positive scale
    radius, the enclosed mass grows strictly with the spherical radius:
    [0 <= r1 < r2] gives [_mass(r1, None) < _mass(r2, None)]. *)
Theorem elementary_mass_increases (a0 r1 r2 : float) :
  0 < a0 -> 0 <= r1 -> r1 < r2 ->
  forall o, In o [HernquistPotential___init__ a0; JaffePotential___init__ a0;
                  NFWPotential___init__ a0] ->
  exists M1 M2,
    call o M_mass [VFloat r1; VNone] [] = Ok M1
    /\ call o M_mass [VFloat r2; VNone] [] = Ok M2
    /\ M1 < M2.
Proof.
  intros Ha H1 H12 o Ho; simpl in Ho.
  assert (0 <= r1 / a0) as Hx
      by (apply Rmult_le_pos; [lra | apply Rlt_le, Rinv_0_lt_compat; lra]).
  assert (r1 / a0 < r2 / a0) as Hxy
      by (apply Rmult_lt_compat_r; [apply Rinv_0_lt_compat |]; lra).
  set (x := r1 / a0) in *; set (y := r2 / a0) in *.
  pose proof (ratio_increasing x y Hx Hxy) as Hq.
  assert (0 <= x / (1 + x))
    by (apply Rmult_le_pos; [lra | apply Rlt_le, Rinv_0_lt_compat; lra]).
  destruct Ho as [<- | [<- | [<- | []]]];
    do 2 eexists;
    (split; [run_call; reflexivity |]);
    (split; [run_call; reflexivity |]); fold x; fold y.
  - rewrite !pow_2.
    replace (x * x / 2 / ((1 + x) * (1 + x)))
      with (/ 2 * (x / (1 + x) * (x / (1 + x)))) by (field; lra).
    replace (y * y / 2 / ((1 + y) * (1 + y)))
      with (/ 2 * (y / (1 + y) * (y / (1 + y)))) by (field; lra).
    nra.
  - exact Hq.
  - assert (0 < (y - x) / (1 + x)) as Ht
        by (apply Rdiv_lt_0_compat; lra).
    pose proof (ln_1_plus_lower _ Ht) as Hln.
    replace (1 + (y - x) / (1 + x)) with ((1 + y) / (1 + x)) in Hln
      by (field; lra).
    rewrite ln_div_pos in Hln by lra.
    replace ((y - x) / (1 + x) / ((1 + y) / (1 + x)))
      with ((y - x) / (1 + y)) in Hln by (field; lra).
    assert (y / (1 + y) - x / (1 + x) <= (y - x) / (1 + y)) as Hd.
    { replace (y / (1 + y) - x / (1 + x))
        with ((y - x) / (1 + y) * / (1 + x)) by (field; lra).
      assert (0 < (y - x) / (1 + y)) by (apply Rdiv_lt_0_compat; lra).
      assert (/ (1 + x) <= 1).
      { rewrite <- Rinv_1 at 2; apply Rinv_le_contravar; lra. }
      nra. }
    lra.
Qed.

(** ** The general formulas at the NFW and the Jaffe exponents *)

Section Logarithmic.

(** The values of the hypergeometric function that the general formulas
    use at the exponents (1, 3) and, for the potential, at (2, 4). *)
Hypothesis hyp2f1_2_2_3 :
  forall x, 0 < x ->
    hyp2f1 2 2 3 (- x) = 2 * (ln (1 + x) - x / (1 + x)) / (x * x).
Hypothesis hyp2f1_2_1_3 :
  forall x, 0 < x -> hyp2f1 2 1 3 (- x) = 2 * (x - ln (1 + x)) / (x * x).
Hypothesis hyp2f1_1_2_3 :
  forall x, 0 < x -> hyp2f1 1 2 3 (- x) = 2 * (x - ln (1 + x)) / (x * x).
Hypothesis Gamma_1 : Gamma 1 = 1.
Hypothesis Gamma_2 : Gamma 2 = 1.
Hypothesis Gamma_3 : Gamma 3 = 2.

(** X24: for the exponents (1, 3), positive scale radius and a point off
    the centre, with the logarithmic values of 2F1 at the parameters
    (2, 2; 3) and (2, 1; 3): the potential and the forces answered through
    the delegates are those of the NFW class and equal the ones of the
    general formulas ([_forceFloatEval=True], the potential by the branch
    for [beta == 3]), and the enclosed mass of the NFW class equals the one
    of the general class. *)
Theorem nfw_paths_agree (a0 : float) (R z : float) :
  0 < a0 -> 0 < radius R z ->
  let general := new_TwoPowerSphericalPotential a0 1 3 in
  let nfw := NFWPotential___init__ a0 in
  (forall m, In m [M_evaluate; M_Rforce; M_zforce] ->
     same_value (call general m [VFloat R; VFloat z] [])
                (call nfw m [VFloat R; VFloat z] [])
     /\ same_value (call nfw m [VFloat R; VFloat z] [])
                   (call general m [VFloat R; VFloat z] forced))
  /\ same_value (call nfw M_mass [VFloat R; VFloat z] [])
                (call general M_mass [VFloat R; VFloat z] []).
Proof.
  intros Ha Hr general nfw; subst general nfw.
  pose proof (radius_sqr_eq R z) as Hrr.
  assert (0 < radius R z + a0) by lra.
  assert (0 < radius R z / a0) as Hx by (apply Rdiv_lt_0_compat; assumption).
  assert (1 + radius R z / a0 <> 0) by lra.
  rewrite new_TwoPowerSphericalPotential_integer, Integer_1_3_object.
  split.
  - intros m Hm; simpl in Hm.
    destruct Hm as [<- | [<- | [<- | []]]];
      (split; [eexists; split; reflexivity |]);
      (eexists; split; [run_call; reflexivity |]);
      run_call; rewrite ?eqb_refl; apply f_equal; fold (radius R z);
      replace (3 - 1) with 2 by lra;
      replace (2 - 1) with 1 by lra;
      replace (4 - 1) with 3 by lra;
      replace (1 - 3) with (-2) by lra;
      replace (- radius R z / a0) with (- (radius R z / a0)) by (field; lra);
      rewrite ?hyp2f1_2_2_3, ?hyp2f1_2_1_3 by assumption;
      rewrite ?pow_IZR; simpl powerRZ; rewrite ?Rmult_1_r, <- ?Hrr;
      field; repeat split; lra.
  - eexists; split; [run_call; reflexivity |].
    run_call; apply f_equal.
    replace (- (1) + 3) with 2 by lra.
    replace (3 - 1) with 2 by lra.
    replace (4 - 1) with 3 by lra.
    replace (- radius R z / a0) with (- (radius R z / a0)) by (field; lra).
    rewrite hyp2f1_2_2_3, pow_2 by assumption.
    field; repeat split; lra.
Qed.

(** X25: for the exponents (2, 4), positive scale radius and a point off
    the centre, with [Gamma 1 = Gamma 2 = 1], [Gamma 3 = 2] and the
    logarithmic value of 2F1 at the parameters (1, 2; 3): the potential
    answered through the delegates is the one of the Jaffe class and equals
    the one of the general formula ([_forceFloatEval=True]). *)
Theorem jaffe_potential_paths_agree (a0 : float) (R z : float) :
  0 < a0 -> 0 < radius R z ->
  let general := new_TwoPowerSphericalPotential a0 2 4 in
  let jaffe := JaffePotential___init__ a0 in
  same_value (call general M_evaluate [VFloat R; VFloat z] [])
             (call jaffe M_evaluate [VFloat R; VFloat z] [])
  /\ same_value (call jaffe M_evaluate [VFloat R; VFloat z] [])
                (call general M_evaluate [VFloat R; VFloat z] forced).
Proof.
  intros Ha Hr general jaffe; subst general jaffe.
  assert (0 < a0 / radius R z) as Hy by (apply Rdiv_lt_0_compat; assumption).
  rewrite new_TwoPowerSphericalPotential_integer, Integer_2_4_object.
  split; [eexists; split; reflexivity |].
  eexists; split; [run_call; reflexivity |].
  run_call; rewrite (eqb_neq 4 3) by lra; apply f_equal; fold (radius R z).
  replace (4 - 3) with 1 by lra.
  replace (4 - 2) with 2 by lra.
  replace (4 - 1) with 3 by lra.
  replace (3 - 2) with 1 by lra.
  replace (3 - 4) with (-1) by lra.
  replace (- a0 / radius R z) with (- (a0 / radius R z)) by (field; lra).
  rewrite hyp2f1_1_2_3, Gamma_1, Gamma_2, Gamma_3 by assumption.
  rewrite pow_IZR; simpl powerRZ.
  field; repeat split; lra.
Qed.

End Logarithmic.

End FurtherProperties.

(** ** The further statements at concrete inputs *)

Lemma radius_3_4 : 0 < radius 3 4.
Proof. apply radius_pos; lra. Qed.

Lemma potential_and_mass_depend_on_radius_witness :
  let o := new_TwoPowerSphericalPotential 1 1 4 in
  radius 3 4 = radius 4 3
  /\ same_value
       (call Gamma_factorial hyp2f1_binomial o M_evaluate
             [VFloat 3; VFloat 4] [])
       (call Gamma_factorial hyp2f1_binomial o M_evaluate
             [VFloat 4; VFloat 3] [])
  /\ same_value
       (call Gamma_factorial hyp2f1_binomial o M_mass [VFloat 3; VFloat 4] [])
       (call Gamma_factorial hyp2f1_binomial o M_mass [VFloat 4; VFloat 3] []).
Proof.
  intros o.
  assert (radius 3 4 = radius 4 3) as Hr by (symmetry; apply radius_swap).
  split; [exact Hr |].
  exact (potential_and_mass_depend_on_radius
           Gamma_factorial hyp2f1_binomial o 3 4 4 3 Hr).
Defined.

Lemma force_is_enclosed_mass_over_r2_witness :
  let o := Instance TwoPowerSphericalPotential 5 1.5 3.5 None in
  0 < a o
  /\ 0 < radius 3 4
  /\ integerSelf o = None
  /\ exists M,
      call Gamma_factorial hyp2f1_binomial o M_mass [VFloat 3; VFloat 4] []
      = Ok M
      /\ call Gamma_factorial hyp2f1_binomial o M_Rforce
              [VFloat 3; VFloat 4] []
         = Ok (- (M / radius 3 4 ^ 2) * (3 / radius 3 4))
      /\ call Gamma_factorial hyp2f1_binomial o M_zforce
              [VFloat 3; VFloat 4] []
         = Ok (- (M / radius 3 4 ^ 2) * (4 / radius 3 4)).
Proof.
  intros o.
  assert (0 < a o) as Ha by (simpl; lra).
  assert (integerSelf o = None) as Hi by reflexivity.
  split; [exact Ha |].
  split; [exact radius_3_4 |].
  split; [exact Hi |].
  exact (force_is_enclosed_mass_over_r2
           Gamma_factorial hyp2f1_binomial o 3 4 Ha radius_3_4 Hi).
Defined.

Lemma mass_of_spherical_radius_witness :
  let o := JaffePotential___init__ 1 in
  0 <= 2
  /\ same_value
       (call Gamma_factorial hyp2f1_binomial o M_mass [VFloat 2; VNone] [])
       (call Gamma_factorial hyp2f1_binomial o M_mass [VFloat 2; VFloat 0] [])
  /\ same_value
       (call Gamma_factorial hyp2f1_binomial o M_mass [VFloat 2]
             [("z", VNone)]%string)
       (call Gamma_factorial hyp2f1_binomial o M_mass [VFloat 2; VFloat 0] [])
  /\ same_value
       (call Gamma_factorial hyp2f1_binomial o M_mass [VFloat 2] [])
       (call Gamma_factorial hyp2f1_binomial o M_mass [VFloat 2; VFloat 0] []).
Proof.
  intros o.
  assert (0 <= 2) as H2 by lra.
  split; [exact H2 |].
  exact (mass_of_spherical_radius Gamma_factorial hyp2f1_binomial o 2 H2).
Defined.

Lemma dehnen_z2deriv_is_R2deriv_swapped_witness :
  let o := new_DehnenSphericalPotential 1 1.5 in
  0 < 1
  /\ 1.5 <> 3
  /\ 0 < radius 3 4
  /\ same_value
       (call Gamma_factorial hyp2f1_binomial o M_z2deriv
             [VFloat 3; VFloat 4] [])
       (call Gamma_factorial hyp2f1_binomial o M_R2deriv
             [VFloat 4; VFloat 3] forced).
Proof.
  intros o.
  assert (0 < 1) as H1 by lra.
  assert (1.5 <> 3) as Halpha by lra.
  split; [exact H1 |].
  split; [exact Halpha |].
  split; [exact radius_3_4 |].
  exact (dehnen_z2deriv_is_R2deriv_swapped
           Gamma_factorial hyp2f1_binomial 1 1.5
           (integerSelf (new_DehnenSphericalPotential 1 1.5)) 3 4
           H1 Halpha radius_3_4).
Defined.

Lemma elementary_z2deriv_is_R2deriv_swapped_witness :
  0 < 1
  /\ 0 < radius 3 4
  /\ forall o, In o [HernquistPotential___init__ 1; JaffePotential___init__ 1;
                     NFWPotential___init__ 1] ->
       same_value
         (call Gamma_factorial hyp2f1_binomial o M_z2deriv
               [VFloat 3; VFloat 4] [])
         (call Gamma_factorial hyp2f1_binomial o M_R2deriv
               [VFloat 4; VFloat 3] []).
Proof.
  assert (0 < 1) as H1 by lra.
  split; [exact H1 |].
  split; [exact radius_3_4 |].
  exact (elementary_z2deriv_is_R2deriv_swapped
           Gamma_factorial hyp2f1_binomial 1 3 4 H1 radius_3_4).
Defined.

Lemma elementary_poisson_equation_witness :
  0 < 1
  /\ 0 < radius 3 4
  /\ forall o, In o [HernquistPotential___init__ 1; JaffePotential___init__ 1;
                     NFWPotential___init__ 1] ->
     exists PhiRR Phizz f rho,
       call Gamma_factorial hyp2f1_binomial o M_R2deriv
            [VFloat 3; VFloat 4] [] = Ok PhiRR
       /\ call Gamma_factorial hyp2f1_binomial o M_z2deriv
               [VFloat 3; VFloat 4] [] = Ok Phizz
       /\ call Gamma_factorial hyp2f1_binomial o M_Rforce
               [VFloat 3; VFloat 4] [] = Ok (3 * f)
       /\ call Gamma_factorial hyp2f1_binomial o M_zforce
               [VFloat 3; VFloat 4] [] = Ok (4 * f)
       /\ TwoPowerSphericalPotential__dens o [VFloat 3; VFloat 4] [] = Ok rho
       /\ PhiRR + Phizz - f = 4 * PI * rho.
Proof.
  assert (0 < 1) as H1 by lra.
  split; [exact H1 |].
  split; [exact radius_3_4 |].
  exact (elementary_poisson_equation
           Gamma_factorial hyp2f1_binomial 1 3 4 H1 radius_3_4).
Defined.

Lemma second_derivatives_of_a_radial_function_witness :
  0 < 1
  /\ 1.5 <> 3
  /\ 0 < radius 3 4
  /\ forall o, In o [HernquistPotential___init__ 1; JaffePotential___init__ 1;
                     NFWPotential___init__ 1;
                     Instance DehnenSphericalPotential 1 1.5 4 None] ->
     exists PhiRR Phizz PhiRz,
       call Gamma_factorial hyp2f1_binomial o M_R2deriv
            [VFloat 3; VFloat 4] [] = Ok PhiRR
       /\ call Gamma_factorial hyp2f1_binomial o M_z2deriv
               [VFloat 3; VFloat 4] [] = Ok Phizz
       /\ call Gamma_factorial hyp2f1_binomial o M_Rzderiv
               [VFloat 3; VFloat 4] [] = Ok PhiRz
       /\ 3 * 4 * (PhiRR - Phizz) = (3 * 3 - 4 * 4) * PhiRz.
Proof.
  assert (0 < 1) as H1 by lra.
  assert (1.5 <> 3) as Halpha by lra.
  split; [exact H1 |].
  split; [exact Halpha |].
  split; [exact radius_3_4 |].
  exact (second_derivatives_of_a_radial_function
           Gamma_factorial hyp2f1_binomial 1 1.5 3 4 H1 Halpha radius_3_4).
Defined.

Lemma dehnen_R2deriv_at_elementary_exponents_witness :
  0 < 1
  /\ 0 < radius 3 4
  /\ same_value
       (call Gamma_factorial hyp2f1_binomial
             (new_DehnenSphericalPotential 1 1) M_R2deriv
             [VFloat 3; VFloat 4] forced)
       (call Gamma_factorial hyp2f1_binomial
             (HernquistPotential___init__ 1) M_R2deriv
             [VFloat 3; VFloat 4] [])
  /\ same_value
       (call Gamma_factorial hyp2f1_binomial
             (new_DehnenSphericalPotential 1 2) M_R2deriv
             [VFloat 3; VFloat 4] forced)
       (call Gamma_factorial hyp2f1_binomial
             (JaffePotential___init__ 1) M_R2deriv
             [VFloat 3; VFloat 4] []).
Proof.
  assert (0 < 1) as H1 by lra.
  split; [exact H1 |].
  split; [exact radius_3_4 |].
  exact (dehnen_R2deriv_at_elementary_exponents
           Gamma_factorial hyp2f1_binomial 1 3 4 H1 radius_3_4).
Defined.

Lemma plain_is_forced_without_elementary_match_witness :
  let o := new_TwoPowerSphericalPotential 1 (IZR 2) (IZR 5) in
  (2, 5)%Z <> (1, 4)%Z
  /\ (2, 5)%Z <> (2, 4)%Z
  /\ (2, 5)%Z <> (1, 3)%Z
  /\ integerSelf o
     = Some (Instance TwoPowerIntegerSphericalPotential 1 (IZR 2) (IZR 5) None)
  /\ forall q, In q [M_evaluate; M_Rforce; M_zforce] ->
       same_value
         (call Gamma_factorial hyp2f1_binomial o q [VFloat 3; VFloat 4] [])
         (call Gamma_factorial hyp2f1_binomial o q [VFloat 3; VFloat 4] forced).
Proof.
  intros o.
  assert ((2, 5)%Z <> (1, 4)%Z) as H14 by discriminate.
  assert ((2, 5)%Z <> (2, 4)%Z) as H24 by discriminate.
  assert ((2, 5)%Z <> (1, 3)%Z) as H13 by discriminate.
  split; [exact H14 |].
  split; [exact H24 |].
  split; [exact H13 |].
  exact (plain_is_forced_without_elementary_match
           Gamma_factorial hyp2f1_binomial 1 2 5 3 4 H14 H24 H13).
Defined.

Lemma jaffe_paths_agree_witness :
  let general := new_TwoPowerSphericalPotential 1 2 4 in
  let jaffe := JaffePotential___init__ 1 in
  0 < 1
  /\ 0 < radius 3 4
  /\ (forall m, In m [M_Rforce; M_zforce] ->
        same_value
          (call Gamma_factorial hyp2f1_binomial general m
                [VFloat 3; VFloat 4] [])
          (call Gamma_factorial hyp2f1_binomial jaffe m [VFloat 3; VFloat 4] [])
        /\ same_value
             (call Gamma_factorial hyp2f1_binomial jaffe m
                   [VFloat 3; VFloat 4] [])
             (call Gamma_factorial hyp2f1_binomial general m
                   [VFloat 3; VFloat 4] forced))
  /\ same_value
       (call Gamma_factorial hyp2f1_binomial jaffe M_mass
             [VFloat 3; VFloat 4] [])
       (call Gamma_factorial hyp2f1_binomial general M_mass
             [VFloat 3; VFloat 4] []).
Proof.
  intros general jaffe.
  assert (0 < 1) as H1 by lra.
  split; [exact H1 |].
  split; [exact radius_3_4 |].
  exact (jaffe_paths_agree Gamma_factorial hyp2f1_binomial
           hyp2f1_binomial_diagonal 1 3 4 H1 radius_3_4).
Defined.

Lemma dehnen_enclosed_mass_witness :
  let o := new_DehnenSphericalPotential 1 1.5 in
  let M := (radius 3 4 / (radius 3 4 + 1)) ** (3 - 1.5) / (3 - 1.5) in
  0 < 1
  /\ 0 < radius 3 4
  /\ call Gamma_factorial hyp2f1_binomial o M_mass [VFloat 3; VFloat 4] []
     = Ok M
  /\ (1.5 < 3 -> 0 < M < 1 / (3 - 1.5)).
Proof.
  intros o M.
  assert (0 < 1) as H1 by lra.
  split; [exact H1 |].
  split; [exact radius_3_4 |].
  exact (dehnen_enclosed_mass Gamma_factorial hyp2f1_binomial
           hyp2f1_binomial_diagonal 1 1.5
           (integerSelf (new_DehnenSphericalPotential 1 1.5)) 3 4
           H1 radius_3_4).
Defined.

Lemma dehnen_poisson_equation_witness :
  let o := Instance DehnenSphericalPotential 1 1.5 4 None in
  0 < 1
  /\ 1.5 <> 3
  /\ 0 < radius 3 4
  /\ exists PhiRR Phizz f rho,
      call Gamma_factorial hyp2f1_binomial o M_R2deriv
           [VFloat 3; VFloat 4] [] = Ok PhiRR
      /\ call Gamma_factorial hyp2f1_binomial o M_z2deriv
              [VFloat 3; VFloat 4] [] = Ok Phizz
      /\ call Gamma_factorial hyp2f1_binomial o M_Rforce
              [VFloat 3; VFloat 4] [] = Ok (3 * f)
      /\ call Gamma_factorial hyp2f1_binomial o M_zforce
              [VFloat 3; VFloat 4] [] = Ok (4 * f)
      /\ TwoPowerSphericalPotential__dens o [VFloat 3; VFloat 4] [] = Ok rho
      /\ PhiRR + Phizz - f = 4 * PI * rho.
Proof.
  intros o.
  assert (0 < 1) as H1 by lra.
  assert (1.5 <> 3) as Halpha by lra.
  split; [exact H1 |].
  split; [exact Halpha |].
  split; [exact radius_3_4 |].
  exact (dehnen_poisson_equation Gamma_factorial hyp2f1_binomial
           hyp2f1_binomial_diagonal 1 1.5 3 4 H1 Halpha radius_3_4).
Defined.

Lemma elementary_mass_bounds_witness :
  0 < 1
  /\ 0 < radius 3 4
  /\ (exists M, call Gamma_factorial hyp2f1_binomial
                     (HernquistPotential___init__ 1) M_mass
                     [VFloat 3; VFloat 4] [] = Ok M
                /\ 0 < M < 1 / 2)
  /\ (exists M, call Gamma_factorial hyp2f1_binomial
                     (JaffePotential___init__ 1) M_mass
                     [VFloat 3; VFloat 4] [] = Ok M
                /\ 0 < M < 1)
  /\ (exists M, call Gamma_factorial hyp2f1_binomial
                     (NFWPotential___init__ 1) M_mass
                     [VFloat 3; VFloat 4] [] = Ok M
                /\ 0 < M).
Proof.
  assert (0 < 1) as H1 by lra.
  split; [exact H1 |].
  split; [exact radius_3_4 |].
  exact (elementary_mass_bounds Gamma_factorial hyp2f1_binomial
           1 3 4 H1 radius_3_4).
Defined.

Lemma elementary_potential_negative_force_attractive_witness :
  0 < 1
  /\ 0 < radius 3 4
  /\ forall o, In o [HernquistPotential___init__ 1; JaffePotential___init__ 1;
                     NFWPotential___init__ 1] ->
     exists Phi f,
       call Gamma_factorial hyp2f1_binomial o M_evaluate
            [VFloat 3; VFloat 4] [] = Ok Phi
       /\ call Gamma_factorial hyp2f1_binomial o M_Rforce
               [VFloat 3; VFloat 4] [] = Ok (3 * f)
       /\ call Gamma_factorial hyp2f1_binomial o M_zforce
               [VFloat 3; VFloat 4] [] = Ok (4 * f)
       /\ Phi < 0
       /\ f < 0.
Proof.
  assert (0 < 1) as H1 by lra.
  split; [exact H1 |].
  split; [exact radius_3_4 |].
  exact (elementary_potential_negative_force_attractive
           Gamma_factorial hyp2f1_binomial 1 3 4 H1 radius_3_4).
Defined.

Lemma elementary_force_is_minus_gradient_witness :
  0 < 1
  /\ 0 < radius 3 4
  /\ forall o, In o [HernquistPotential___init__ 1; JaffePotential___init__ 1;
                     NFWPotential___init__ 1] ->
     exists (Phi : float -> float -> float) (FR Fz : float),
       (forall x y,
           call Gamma_factorial hyp2f1_binomial o M_evaluate
                [VFloat x; VFloat y] [] = Ok (Phi x y))
       /\ call Gamma_factorial hyp2f1_binomial o M_Rforce
               [VFloat 3; VFloat 4] [] = Ok FR
       /\ call Gamma_factorial hyp2f1_binomial o M_zforce
               [VFloat 3; VFloat 4] [] = Ok Fz
       /\ derivable_pt_lim (fun x => Phi x 4) 3 (- FR)
       /\ derivable_pt_lim (fun y => Phi 3 y) 4 (- Fz).
Proof.
  assert (0 < 1) as H1 by lra.
  split; [exact H1 |].
  split; [exact radius_3_4 |].
  exact (elementary_force_is_minus_gradient Gamma_factorial hyp2f1_binomial
           1 3 4 H1 radius_3_4).
Defined.

Lemma elementary_mass_derivative_is_shell_density_witness :
  0 < 1
  /\ 0 < 2
  /\ forall o, In o [HernquistPotential___init__ 1; JaffePotential___init__ 1;
                     NFWPotential___init__ 1] ->
     exists (M : float -> float) (rho : float),
       (forall x,
           call Gamma_factorial hyp2f1_binomial o M_mass
                [VFloat x; VNone] [] = Ok (M x))
       /\ TwoPowerSphericalPotential__dens o [VFloat 2; VFloat 0] [] = Ok rho
       /\ derivable_pt_lim M 2 (4 * PI * (2 * 2) * rho).
Proof.
  assert (0 < 1) as H1 by lra.
  assert (0 < 2) as H2 by lra.
  split; [exact H1 |].
  split; [exact H2 |].
  exact (elementary_mass_derivative_is_shell_density
           Gamma_factorial hyp2f1_binomial 1 2 H1 H2).
Defined.

Lemma elementary_second_derivatives_are_force_derivatives_witness :
  0 < 1
  /\ 0 < radius 3 4
  /\ forall o, In o [HernquistPotential___init__ 1; JaffePotential___init__ 1;
                     NFWPotential___init__ 1] ->
       forces_differentiate_to_second_derivatives_at
         Gamma_factorial hyp2f1_binomial o 3 4.
Proof.
  assert (0 < 1) as H1 by lra.
  split; [exact H1 |].
  split; [exact radius_3_4 |].
  exact (elementary_second_derivatives_are_force_derivatives
           Gamma_factorial hyp2f1_binomial 1 3 4 H1 radius_3_4).
Defined.

Lemma elementary_mass_increases_witness :
  0 < 1
  /\ 0 <= 1
  /\ 1 < 2
  /\ forall o, In o [HernquistPotential___init__ 1; JaffePotential___init__ 1;
                     NFWPotential___init__ 1] ->
     exists M1 M2,
       call Gamma_factorial hyp2f1_binomial o M_mass [VFloat 1; VNone] []
       = Ok M1
       /\ call Gamma_factorial hyp2f1_binomial o M_mass [VFloat 2; VNone] []
          = Ok M2
       /\ M1 < M2.
Proof.
  assert (0 < 1) as H0 by lra.
  assert (0 <= 1) as H1 by lra.
  assert (1 < 2) as H2 by lra.
  split; [exact H0 |].
  split; [exact H1 |].
  split; [exact H2 |].
  exact (elementary_mass_increases Gamma_factorial hyp2f1_binomial
           1 1 2 H0 H1 H2).
Defined.

Lemma hyp2f1_logarithmic_values :
  (forall x, 0 < x ->
     hyp2f1_logarithmic 2 2 3 (- x)
     = 2 * (ln (1 + x) - x / (1 + x)) / (x * x))
  /\ (forall x, 0 < x ->
        hyp2f1_logarithmic 2 1 3 (- x) = 2 * (x - ln (1 + x)) / (x * x))
  /\ (forall x, 0 < x ->
        hyp2f1_logarithmic 1 2 3 (- x) = 2 * (x - ln (1 + x)) / (x * x)).
Proof.
  repeat split; intros x Hx; unfold hyp2f1_logarithmic;
    destruct (Req_dec_T _ _) as [e | n]; try lra;
    replace (1 - - x) with (1 + x) by ring; field; lra.
Qed.

Lemma nfw_paths_agree_witness :
  let general := new_TwoPowerSphericalPotential 1 1 3 in
  let nfw := NFWPotential___init__ 1 in
  0 < 1
  /\ 0 < radius 3 4
  /\ (forall m, In m [M_evaluate; M_Rforce; M_zforce] ->
        same_value
          (call Gamma_factorial hyp2f1_logarithmic general m
                [VFloat 3; VFloat 4] [])
          (call Gamma_factorial hyp2f1_logarithmic nfw m
                [VFloat 3; VFloat 4] [])
        /\ same_value
             (call Gamma_factorial hyp2f1_logarithmic nfw m
                   [VFloat 3; VFloat 4] [])
             (call Gamma_factorial hyp2f1_logarithmic general m
                   [VFloat 3; VFloat 4] forced))
  /\ same_value
       (call Gamma_factorial hyp2f1_logarithmic nfw M_mass
             [VFloat 3; VFloat 4] [])
       (call Gamma_factorial hyp2f1_logarithmic general M_mass
             [VFloat 3; VFloat 4] []).
Proof.
  intros general nfw.
  assert (0 < 1) as H1 by lra.
  split; [exact H1 |].
  split; [exact radius_3_4 |].
  exact (nfw_paths_agree Gamma_factorial hyp2f1_logarithmic
           (proj1 hyp2f1_logarithmic_values)
           (proj1 (proj2 hyp2f1_logarithmic_values))
           1 3 4 H1 radius_3_4).
Defined.

Lemma jaffe_potential_paths_agree_witness :
  let general := new_TwoPowerSphericalPotential 1 2 4 in
  let jaffe := JaffePotential___init__ 1 in
  0 < 1
  /\ 0 < radius 3 4
  /\ same_value
       (call Gamma_factorial hyp2f1_logarithmic general M_evaluate
             [VFloat 3; VFloat 4] [])
       (call Gamma_factorial hyp2f1_logarithmic jaffe M_evaluate
             [VFloat 3; VFloat 4] [])
  /\ same_value
       (call Gamma_factorial hyp2f1_logarithmic jaffe M_evaluate
             [VFloat 3; VFloat 4] [])
       (call Gamma_factorial hyp2f1_logarithmic general M_evaluate
             [VFloat 3; VFloat 4] forced).
Proof.
  intros general jaffe.
  assert (0 < 1) as H1 by lra.
  split; [exact H1 |].
  split; [exact radius_3_4 |].
  exact (jaffe_potential_paths_agree Gamma_factorial hyp2f1_logarithmic
           (proj2 (proj2 hyp2f1_logarithmic_values))
           (proj1 Gamma_factorial_values)
           (proj1 (proj2 Gamma_factorial_values))
           (proj2 (proj2 Gamma_factorial_values))
           1 3 4 H1 radius_3_4).
Defined.
